(** * Question sheet: ordered-hierarchy store and drag reconciliation

    A shallow embedding of
      - [Frontend/src/store/QuestionStore.ts] (the zustand store: ingestion
        transform and the topic / sub-topic / question actions), and
      - [Frontend/src/App.tsx] ([handleDragEnd] and its [parseId]).

    Source vocabulary is kept: topic = category, subTopic = sub-category,
    question = item, [topicOrder] / [subTopicOrder] / [questionOrder] are the
    three order lists.

    Modelling conventions.
      - A JS string is a [string] (a sequence of code units below 256).
      - A JS array is a [list]; an index returned by [indexOf] is a [Z]
        ([-1] when absent), as in the source.
      - A JS object used as a [Record<string, V>] is an association list in
        property-creation order with at most one binding per key, read through
        [Js.get], written through [Js.set], enumerated by [Js.keys]
        (integer-like keys first, ascending; then the others in creation
        order).  The list holds the own properties; the prototype is
        [Object.prototype], whose members a property read [o[k]] finds when
        [o] has no own [k] ([Js.read]).  A plain assignment [o[k] = v] is
        [Js.assign]: for [k = "__proto__"] it goes to the setter of
        [Object.prototype], which replaces the prototype of [o] and creates
        no own property.  The replaced prototype itself is not represented:
        what is then inherited through it is outside this model.
      - [null] / [undefined] is [None].
      - A store action is a function [QuestionState -> QuestionState]; [get()]
        is the argument and [set(partial)] the record update. *)

From Stdlib Require Import String Ascii List ZArith NArith Bool Lia.
From Stdlib Require Import Permutation DecimalString DecimalN.
Import ListNotations.
Open Scope string_scope.
Open Scope list_scope.

(* ===================================================================== *)
(** ** JavaScript primitives used by the source *)
(* ===================================================================== *)

Module Js.

(** *** Characters *)

Definition code (c : ascii) : N := N_of_ascii c.

(** [\s] of a regular expression and the characters stripped by
    [String.prototype.trim]: TAB, LF, VT, FF, CR, SPACE, NBSP. *)
Definition is_space (c : ascii) : bool :=
  let n := code c in
  ((9 <=? n) && (n <=? 13) || (n =? 32) || (n =? 160))%N.

(** [.] (without the [s] flag) refuses the line terminators. *)
Definition is_line_terminator (c : ascii) : bool :=
  let n := code c in ((n =? 10) || (n =? 13))%N.

(** [\d] *)
Definition is_digit (c : ascii) : bool :=
  let n := code c in ((48 <=? n) && (n <=? 57))%N.

(** Canonicalisation under the [i] flag, restricted to the ASCII letters
    (a code unit of 128 or more never canonicalises to an ASCII one). *)
Definition to_upper (c : ascii) : ascii :=
  let n := code c in
  if ((97 <=? n) && (n <=? 122))%N then ascii_of_N (n - 32) else c.

Definition eq_ci (a b : ascii) : bool := Ascii.eqb (to_upper a) (to_upper b).

(** *** Strings *)

(** [s.startsWith(p)] *)
Fixpoint startsWith (p s : string) : bool :=
  match p, s with
  | EmptyString, _ => true
  | String _ _, EmptyString => false
  | String a p', String b s' => Ascii.eqb a b && startsWith p' s'
  end.

(** [s.substring(n)] for [0 <= n]. *)
Fixpoint substring_from (n : nat) (s : string) : string :=
  match n, s with
  | O, _ => s
  | S _, EmptyString => EmptyString
  | S k, String _ r => substring_from k r
  end.

(** [s.split(sep)] for a one-character separator. *)
Fixpoint split (sep : ascii) (s : string) : list string :=
  match s with
  | EmptyString => [EmptyString]
  | String c r =>
      if Ascii.eqb c sep then EmptyString :: split sep r
      else match split sep r with
           | [] => [String c EmptyString]
           | h :: t => String c h :: t
           end
  end.

Fixpoint trimStart (s : string) : string :=
  match s with
  | EmptyString => EmptyString
  | String c r => if is_space c then trimStart r else s
  end.

Fixpoint trimEnd (s : string) : string :=
  match s with
  | EmptyString => EmptyString
  | String c r =>
      match trimEnd r with
      | EmptyString => if is_space c then EmptyString else String c EmptyString
      | r' => String c r'
      end
  end.

(** [s.trim()] *)
Definition trim (s : string) : string := trimEnd (trimStart s).

Fixpoint forallb_str (p : ascii -> bool) (s : string) : bool :=
  match s with
  | EmptyString => true
  | String c r => p c && forallb_str p r
  end.

(** Case-insensitive match of a literal at the head of [s]; the rest of [s]
    on success. *)
Fixpoint strip_ci (lit s : string) : option string :=
  match lit, s with
  | EmptyString, _ => Some s
  | String _ _, EmptyString => None
  | String a lit', String b s' => if eq_ci a b then strip_ci lit' s' else None
  end.

Definition is_roman (c : ascii) : bool :=
  eq_ci c "I" || eq_ci c "V" || eq_ci c "X".

Definition nonempty (s : string) : bool :=
  match s with EmptyString => false | String _ _ => true end.

(** [(Part-[IVX]+|part-\d+)$] under the [i] flag: the whole of [s] is
    "part-" (any case) followed by one or more of I, V, X (any case), or by
    one or more digits. *)
Definition match_part_token (s : string) : bool :=
  match strip_ci "Part-" s with
  | Some r => nonempty r && (forallb_str is_roman r || forallb_str is_digit r)
  | None => false
  end.

(** [\s+(Part-[IVX]+|part-\d+)$] matched at the head of [s].  The token
    starts with a letter, so the greedy [\s+] can only stop at the first
    character that is not a space. *)
Definition match_part_suffix (s : string) : bool :=
  match s with
  | String c r => is_space c && match_part_token (trimStart r)
  | EmptyString => false
  end.

(** [topic.match(/^(.*?)\s+(Part-[IVX]+|part-\d+)$/i)]: the result is capture
    group 1 when the expression matches.  The lazy group tries the shortest
    prefix first and never crosses a line terminator. *)
Fixpoint partMatch (s : string) : option string :=
  if match_part_suffix s then Some EmptyString
  else match s with
       | EmptyString => None
       | String c r =>
           if is_line_terminator c then None
           else option_map (String c) (partMatch r)
       end.

(** *** Arrays *)

(** [l.indexOf(x)] *)
Fixpoint indexOf (x : string) (l : list string) : Z :=
  match l with
  | [] => (-1)%Z
  | y :: r =>
      if String.eqb y x then 0%Z
      else let i := indexOf x r in
           if (i <? 0)%Z then (-1)%Z else (i + 1)%Z
  end.

(** [l.includes(x)] *)
Definition includes (x : string) (l : list string) : bool :=
  existsb (String.eqb x) l.

(** [l.splice(start, deleteCount, ...items)]: the removed elements and the
    array as it is afterwards. *)
Definition splice {A : Type} (start deleteCount : Z) (items l : list A)
  : list A * list A :=
  let len := Z.of_nat (length l) in
  let actualStart :=
    if (start <? 0)%Z then Z.max (len + start) 0 else Z.min start len in
  let actualDelete := Z.min (Z.max deleteCount 0) (len - actualStart) in
  let i := Z.to_nat actualStart in
  let d := Z.to_nat actualDelete in
  (firstn d (skipn i l), firstn i l ++ items ++ skipn (i + d) l).

(** The three-statement idiom of [handleDragEnd]:
<<
      const copy = [...l];
      const [removed] = copy.splice(oldIndex, 1);
      copy.splice(newIndex, 0, removed);
>>
    [oldIndex] is an index of [l] wherever the source runs this, so
    [removed] is defined. *)
Definition spliceMove {A : Type} (oldIndex newIndex : Z) (l : list A) : list A :=
  let '(removed, copy) := splice oldIndex 1 [] l in
  snd (splice newIndex 0 (firstn 1 removed) copy).

(** *** Objects as string-keyed records *)

Definition obj (V : Type) : Type := list (string * V).

Definition empty {V : Type} : obj V := [].

(** [o[k]] *)
Fixpoint get {V : Type} (k : string) (o : obj V) : option V :=
  match o with
  | [] => None
  | (k', v) :: r => if String.eqb k' k then Some v else get k r
  end.

(** [o[k] = v]: an existing property keeps its place. *)
Fixpoint set {V : Type} (k : string) (v : V) (o : obj V) : obj V :=
  match o with
  | [] => [(k, v)]
  | (k', v') :: r =>
      if String.eqb k' k then (k', v) :: r else (k', v') :: set k v r
  end.

(** [delete o[k]] *)
Definition delete {V : Type} (k : string) (o : obj V) : obj V :=
  filter (fun kv => negb (String.eqb (fst kv) k)) o.

Fixpoint digits_value (acc : N) (s : string) : option N :=
  match s with
  | EmptyString => Some acc
  | String c r =>
      if is_digit c then digits_value (10 * acc + (code c - 48))%N r else None
  end.

(** A property key is an array index when it is the canonical decimal
    numeral of an integer below [2^32 - 1]. *)
Definition array_index (k : string) : option N :=
  match k with
  | EmptyString => None
  | String c r =>
      if Ascii.eqb c "0" && nonempty r then None
      else match digits_value 0 k with
           | Some n => if (n <? 4294967295)%N then Some n else None
           | None => None
           end
  end.

Fixpoint insert_index (n : N) (k : string) (l : list (N * string))
  : list (N * string) :=
  match l with
  | [] => [(n, k)]
  | (m, k') :: r =>
      if (n <=? m)%N then (n, k) :: l else (m, k') :: insert_index n k r
  end.

Fixpoint index_keys {V : Type} (o : obj V) : list (N * string) :=
  match o with
  | [] => []
  | (k, _) :: r =>
      match array_index k with
      | Some n => insert_index n k (index_keys r)
      | None => index_keys r
      end
  end.

Fixpoint name_keys {V : Type} (o : obj V) : list string :=
  match o with
  | [] => []
  | (k, _) :: r =>
      match array_index k with
      | Some _ => name_keys r
      | None => k :: name_keys r
      end
  end.

(** [Object.keys(o)]: array indices ascending, then the other keys in the
    order they were created. *)
Definition keys {V : Type} (o : obj V) : list string :=
  map snd (index_keys o) ++ name_keys o.

(** The invariant of an object: one binding per key. *)
Definition wf {V : Type} (o : obj V) : Prop := NoDup (map fst o).

(** What an object without own property [k] finds under [k] in
    [Object.prototype]: a function, with its [length], or, under
    ["__proto__"], the prototype object itself. *)
Inductive Inherited : Type :=
| Method (arity : nat)
| PrototypeObject.

Definition objectPrototype : list (string * Inherited) :=
  [("constructor", Method 1);
   ("__defineGetter__", Method 2);
   ("__defineSetter__", Method 2);
   ("hasOwnProperty", Method 1);
   ("__lookupGetter__", Method 1);
   ("__lookupSetter__", Method 1);
   ("isPrototypeOf", Method 1);
   ("propertyIsEnumerable", Method 1);
   ("toString", Method 0);
   ("valueOf", Method 0);
   ("__proto__", PrototypeObject);
   ("toLocaleString", Method 0)].

Definition inherited (k : string) : option Inherited := get k objectPrototype.

(** The value of the expression [o[k]]. *)
Inductive Lookup (V : Type) : Type :=
| Own (v : V)
| FromPrototype (i : Inherited)
| Undefined.

Arguments Own {V} v.
Arguments FromPrototype {V} i.
Arguments Undefined {V}.

Definition read {V : Type} (k : string) (o : obj V) : Lookup V :=
  match get k o with
  | Some v => Own v
  | None =>
      match inherited k with
      | Some i => FromPrototype i
      | None => Undefined
      end
  end.

(** [o[k] = v] (a plain assignment, not a computed key of an object
    literal): an own ["__proto__"] is written like any property; without
    one the assignment replaces the prototype and leaves the own properties
    as they are. *)
Definition assign {V : Type} (k : string) (v : V) (o : obj V) : obj V :=
  match get k o with
  | Some _ => set k v o
  | None => if String.eqb k "__proto__" then o else set k v o
  end.

End Js.

(* ===================================================================== *)
(** ** The store: [Frontend/src/store/QuestionStore.ts] *)
(* ===================================================================== *)

Module QuestionStore.

Import Js.

(** *** Types *)

(** The nested [questionId] object of a question. *)
Record QuestionRef : Type := mkQuestionRef {
  ref_id : string;
  name : string;
  difficulty : string;
  platform : string;
  problemUrl : string
}.

Record Question : Type := mkQuestion {
  _id : string;
  title : string;
  topic : string;
  subTopic : option string;
  resource : option string;
  questionId : QuestionRef
}.

Record SheetConfig : Type := mkSheetConfig {
  topicOrder : list string;
  subTopicOrder : obj (list string);
  questionOrder : list string
}.

Record QuestionState : Type := mkQuestionState {
  config : SheetConfig;
  questions : list Question;
  loading : bool;
  error : option string
}.

(** [Partial<Question>]: every field may be missing. *)
Record PartialQuestion : Type := mkPartialQuestion {
  p_id : option string;
  p_title : option string;
  p_topic : option string;
  p_subTopic : option (option string);
  p_resource : option (option string);
  p_questionId : option QuestionRef
}.

(** [{ ...q, topic: t }] and friends. *)
Definition with_topic (t : string) (q : Question) : Question :=
  mkQuestion (_id q) (title q) t (subTopic q) (resource q) (questionId q).

Definition with_subTopic (st : option string) (q : Question) : Question :=
  mkQuestion (_id q) (title q) (topic q) st (resource q) (questionId q).

(** [{ ...q, ...updates }] *)
Definition merge (q : Question) (u : PartialQuestion) : Question :=
  let pick {A : Type} (o : option A) (d : A) : A :=
    match o with Some v => v | None => d end in
  mkQuestion (pick (p_id u) (_id q)) (pick (p_title u) (title q))
             (pick (p_topic u) (topic q)) (pick (p_subTopic u) (subTopic q))
             (pick (p_resource u) (resource q))
             (pick (p_questionId u) (questionId q)).

(** [set({ config: c })], [set({ questions: qs })] and
    [set({ config: c, questions: qs })]: the other fields of the state are
    kept. *)
Definition set_config (c : SheetConfig) (s : QuestionState) : QuestionState :=
  mkQuestionState c (questions s) (loading s) (error s).

Definition set_questions (qs : list Question) (s : QuestionState) : QuestionState :=
  mkQuestionState (config s) qs (loading s) (error s).

Definition set_both (c : SheetConfig) (qs : list Question) (s : QuestionState)
  : QuestionState :=
  mkQuestionState c qs (loading s) (error s).

(** [a === b] on [string | null]. *)
Definition opt_eqb (a b : option string) : bool :=
  match a, b with
  | Some x, Some y => String.eqb x y
  | None, None => true
  | _, _ => false
  end.

(** The own entry of [k], or the empty list. *)
Definition get_or_empty (k : string) (o : obj (list string)) : list string :=
  match get k o with Some l => l | None => [] end.

(** [o[k] || []] where the source goes on as with an array ([filter], [map],
    [includes], [indexOf], a spread): the own entry, the empty list when
    [o[k]] is undefined, and [None] when [o[k]] is a member inherited from
    [Object.prototype], on which each of these throws a TypeError. *)
Definition listAt (k : string) (o : obj (list string)) : option (list string) :=
  match read k o with
  | Own l => Some l
  | Undefined => Some []
  | FromPrototype _ => None
  end.

(** The initial state of the store. *)
Definition initial : QuestionState :=
  mkQuestionState (mkSheetConfig [] empty []) [] false None.

(** *** Fetching: the ingestion transform *)

(** What [response.data.data] holds: [sheet.config] with its two order lists,
    and [questions]; each may be missing.  The [sheet] object itself is taken
    to be present. *)
Record RawConfig : Type := mkRawConfig {
  raw_topicOrder : option (list string);
  raw_questionOrder : option (list string)
}.

Record SheetData : Type := mkSheetData {
  sheet_config : option RawConfig;
  data_questions : option (list Question)
}.

(** A value caught by [catch (error)]. *)
Inductive Thrown : Type :=
| ErrorObject (message : string)
| OtherValue.

(** The outcome of [await axios.get(...)]. *)
Inductive Response : Type :=
| Resolved (d : SheetData)
| Rejected (e : Thrown).

(** An entry of [topicMapping]. *)
Record Mapping : Type := mkMapping {
  m_topic : string;
  m_subtopic : option string
}.

(** [if (!groups[k]) groups[k] = []; groups[k].push(x);]
    An inherited member is truthy, so no group is created for it, and it has
    no [push]: the call throws ([None]). *)
Definition push_group (k x : string) (groups : obj (list string))
  : option (obj (list string)) :=
  match read k groups with
  | Own l => Some (set k (l ++ [x]) groups)
  | Undefined => Some (set k [x] groups)
  | FromPrototype _ => None
  end.

(** The TypeError of a failed [push]; the wording is the engine's (here
    V8's), for the expression [target]. *)
Definition notAFunction (target : string) : Thrown :=
  ErrorObject (target ++ ".push is not a function").

(** The body of the first [forEach]: the groups afterwards, or the value
    thrown.  The standalone branch is a plain assignment: for the topic
    "__proto__" it creates no group and the topic is dropped; it also
    replaces the prototype of [topicGroups], so what the later reads of that
    run inherit is then outside this model, and the statements about a
    whole ingestion take a flat list without "__proto__". *)
Definition firstPass_step (all : list string) (topicGroups : obj (list string))
                          (topic : string) : obj (list string) + Thrown :=
  match partMatch topic with
  | Some g1 =>
      let baseTopic := trim g1 in
      match push_group baseTopic topic topicGroups with
      | Some groups => inl groups
      | None => inr (notAFunction "topicGroups[baseTopic]")
      end
  | None =>
      let hasPartTopics :=
        existsb (fun t => startsWith (topic ++ " Part-")%string t) all in
      if hasPartTopics then
        match push_group topic topic topicGroups with
        | Some groups => inl groups
        | None => inr (notAFunction "topicGroups[topic]")
        end
      else inl (assign topic [] topicGroups)
  end.

(** The first [forEach], run over [topics] from the groups [acc]; a throw
    ends it. *)
Definition firstPass_from (all topics : list string)
                          (acc : obj (list string) + Thrown)
  : obj (list string) + Thrown :=
  fold_left (fun acc topic =>
               match acc with
               | inl topicGroups => firstPass_step all topicGroups topic
               | inr e => inr e
               end)
            topics acc.

Definition firstPass (all : list string) : obj (list string) + Thrown :=
  firstPass_from all all (inl empty).

(** The three structures filled by the second [forEach]. *)
Record Transformed : Type := mkTransformed {
  transformedTopicOrder : list string;
  transformedSubTopicOrder : obj (list string);
  topicMapping : obj Mapping
}.

Definition secondPass_step (topicGroups : obj (list string)) (acc : Transformed)
                           (baseTopic : string) : Transformed :=
  let members := get_or_empty baseTopic topicGroups in
  let order := transformedTopicOrder acc ++ [baseTopic] in
  if (1 <? length members)%nat then
    mkTransformed order
      (assign baseTopic members (transformedSubTopicOrder acc))
      (fold_left (fun m originalTopic =>
                    assign originalTopic
                           (mkMapping baseTopic (Some originalTopic)) m)
                 members (topicMapping acc))
  else
    mkTransformed order
      (transformedSubTopicOrder acc)
      (assign baseTopic (mkMapping baseTopic None) (topicMapping acc)).

Definition secondPass (topicGroups : obj (list string)) : Transformed :=
  fold_left (secondPass_step topicGroups) (keys topicGroups)
            (mkTransformed [] empty empty).

Definition transform (all : list string) : Transformed + Thrown :=
  match firstPass all with
  | inl topicGroups => inl (secondPass topicGroups)
  | inr e => inr e
  end.

(** [const mapping = topicMapping[q.topic]; if (mapping) {...q, topic:
    mapping.topic, subTopic: mapping.subtopic} else q].
    When [q.topic] is a member inherited from [Object.prototype] without an
    entry of its own, [mapping] is that member: it is truthy and has neither
    field, so the source gives the question an undefined topic and an
    undefined sub-topic.  No [Question] holds an undefined topic: there the
    question is outside this model, the function returns it as it is, and
    every statement about the questions of an ingestion excludes the case
    (see [plainTopics]). *)
Definition transformQuestion (mapping : obj Mapping) (q : Question) : Question :=
  match read (topic q) mapping with
  | Own m => with_subTopic (m_subtopic m) (with_topic (m_topic m) q)
  | Undefined => q
  | FromPrototype _ => q
  end.

(** The [try] block after the [await]: the partial state handed to [set], or
    the value thrown. *)
Definition ingest (r : Response) : SheetConfig * list Question + Thrown :=
  match r with
  | Rejected e => inr e
  | Resolved d =>
      match sheet_config d, data_questions d with
      | Some cfg, Some qs =>
          match raw_topicOrder cfg with
          | Some all =>
              match transform all with
              | inl t =>
                  inl (mkSheetConfig (transformedTopicOrder t)
                                     (transformedSubTopicOrder t)
                                     (match raw_questionOrder cfg with
                                      | Some o => o
                                      | None => []
                                      end),
                       map (transformQuestion (topicMapping t)) qs)
              | inr e => inr e
              end
          | None => inr (ErrorObject "Invalid data structure from API")
          end
      | _, _ => inr (ErrorObject "Invalid data structure from API")
      end
  end.

(** [set({ loading: true, error: null })], before the request. *)
Definition fetchSheetData_begin (s : QuestionState) : QuestionState :=
  mkQuestionState (config s) (questions s) true None.

(** What happens once the request has settled. *)
Definition fetchSheetData_settle (r : Response) (s : QuestionState)
  : QuestionState :=
  match ingest r with
  | inl (c, qs) => mkQuestionState c qs false (error s)
  | inr e =>
      mkQuestionState (config s) (questions s) false
        (Some (match e with
               | ErrorObject m => m
               | OtherValue => "Failed to fetch data"
               end))
  end.

(** A whole run with no other action in between. *)
Definition fetchSheetData (r : Response) (s : QuestionState) : QuestionState :=
  fetchSheetData_settle r (fetchSheetData_begin s).

(** *** Topic actions *)

Definition addTopic (topicName : string) (s : QuestionState) : QuestionState :=
  let c := config s in
  if negb (includes topicName (topicOrder c)) then
    set_config (mkSheetConfig (topicOrder c ++ [topicName])
                              (subTopicOrder c) (questionOrder c)) s
  else s.

Definition rename (oldName newName x : string) : string :=
  if String.eqb x oldName then newName else x.

Definition editTopic (oldName newName : string) (s : QuestionState)
  : QuestionState :=
  let c := config s in
  let updatedTopicOrder := map (rename oldName newName) (topicOrder c) in
  let updatedSubTopicOrder :=
    fold_left (fun updated key =>
                 assign (rename oldName newName key)
                        (get_or_empty key (subTopicOrder c)) updated)
              (keys (subTopicOrder c)) empty in
  let updatedQuestions :=
    map (fun q => if String.eqb (topic q) oldName then with_topic newName q else q)
        (questions s) in
  set_both (mkSheetConfig updatedTopicOrder updatedSubTopicOrder (questionOrder c))
           updatedQuestions s.

Definition deleteTopic (topicName : string) (s : QuestionState) : QuestionState :=
  let c := config s in
  let updatedTopicOrder :=
    filter (fun t => negb (String.eqb t topicName)) (topicOrder c) in
  let updatedSubTopicOrder := delete topicName (subTopicOrder c) in
  let updatedQuestions :=
    filter (fun q => negb (String.eqb (topic q) topicName)) (questions s) in
  let updatedQuestionOrder :=
    filter (fun qId => existsb (fun q => String.eqb (_id q) qId) updatedQuestions)
           (questionOrder c) in
  set_both (mkSheetConfig updatedTopicOrder updatedSubTopicOrder updatedQuestionOrder)
           updatedQuestions s.

Definition reorderTopics (newOrder : list string) (s : QuestionState)
  : QuestionState :=
  let c := config s in
  set_config (mkSheetConfig newOrder (subTopicOrder c) (questionOrder c)) s.

(** *** SubTopic actions *)

(** In the four actions that read [config.subTopicOrder[k] || []], a
    TypeError is thrown before [set] is reached when the value read is an
    inherited member: the state is then the one before. *)
Definition addSubTopic (topicName subTopicName : string) (s : QuestionState)
  : QuestionState :=
  let c := config s in
  match listAt topicName (subTopicOrder c) with
  | None => s
  | Some currentSubTopics =>
      if negb (includes subTopicName currentSubTopics) then
        set_config (mkSheetConfig (topicOrder c)
                      (set topicName (currentSubTopics ++ [subTopicName])
                           (subTopicOrder c))
                      (questionOrder c)) s
      else s
  end.

Definition editSubTopic (topicName oldName newName : string) (s : QuestionState)
  : QuestionState :=
  let c := config s in
  match listAt topicName (subTopicOrder c) with
  | None => s
  | Some currentSubTopics =>
      let updatedSubTopics := map (rename oldName newName) currentSubTopics in
      let updatedQuestions :=
        map (fun q =>
               if String.eqb (topic q) topicName
                  && opt_eqb (subTopic q) (Some oldName)
               then with_subTopic (Some newName) q else q)
            (questions s) in
      set_both (mkSheetConfig (topicOrder c)
                  (set topicName updatedSubTopics (subTopicOrder c))
                  (questionOrder c))
               updatedQuestions s
  end.

Definition deleteSubTopic (topicName subTopicName : string) (s : QuestionState)
  : QuestionState :=
  let c := config s in
  match listAt topicName (subTopicOrder c) with
  | None => s
  | Some currentSubTopics =>
      let updatedSubTopics :=
        filter (fun st => negb (String.eqb st subTopicName)) currentSubTopics in
      let updatedQuestions :=
        map (fun q =>
               if String.eqb (topic q) topicName
                  && opt_eqb (subTopic q) (Some subTopicName)
               then with_subTopic None q else q)
            (questions s) in
      set_both (mkSheetConfig (topicOrder c)
                  (set topicName updatedSubTopics (subTopicOrder c))
                  (questionOrder c))
               updatedQuestions s
  end.

Definition reorderSubTopics (topicName : string) (newOrder : list string)
                            (s : QuestionState) : QuestionState :=
  let c := config s in
  set_config (mkSheetConfig (topicOrder c)
                (set topicName newOrder (subTopicOrder c))
                (questionOrder c)) s.

(** The object literal lists [fromTopic] before [toTopic]: when the two are
    the same key the second value is the one kept. *)
Definition moveSubTopicToTopic (subTopicName fromTopic toTopic : string)
                               (s : QuestionState) : QuestionState :=
  let c := config s in
  match listAt fromTopic (subTopicOrder c), listAt toTopic (subTopicOrder c) with
  | Some sourceSubTopics, Some destSubTopics =>
      let updatedSourceSubTopics :=
        filter (fun st => negb (String.eqb st subTopicName)) sourceSubTopics in
      let updatedDestSubTopics := destSubTopics ++ [subTopicName] in
      let updatedQuestions :=
        map (fun q =>
               if String.eqb (topic q) fromTopic
                  && opt_eqb (subTopic q) (Some subTopicName)
               then with_topic toTopic q else q)
            (questions s) in
      set_both (mkSheetConfig (topicOrder c)
                  (set toTopic updatedDestSubTopics
                       (set fromTopic updatedSourceSubTopics (subTopicOrder c)))
                  (questionOrder c))
               updatedQuestions s
  | _, _ => s
  end.

(** *** Question actions *)

(** [x || d] on an optional string: the empty string is falsy too. *)
Definition or_default (x : option string) (d : string) : string :=
  match x with
  | Some v => if nonempty v then v else d
  | None => d
  end.

(** [x || null] on a [string | null] field of a partial question. *)
Definition or_null (x : option (option string)) : option string :=
  match x with
  | Some (Some v) => if nonempty v then Some v else None
  | _ => None
  end.

Definition defaultRef : QuestionRef := mkQuestionRef EmptyString EmptyString "Medium" EmptyString EmptyString.

(** [now] is the reading of [Date.now()]. *)
Definition addQuestion (now : N) (question : PartialQuestion) (s : QuestionState)
  : QuestionState :=
  let c := config s in
  let newQuestion :=
    mkQuestion
      ("temp_" ++ DecimalString.NilEmpty.string_of_uint (N.to_uint now))%string
      (or_default (p_title question) "New Question")
      (or_default (p_topic question) EmptyString)
      (or_null (p_subTopic question))
      (or_null (p_resource question))
      (match p_questionId question with Some r => r | None => defaultRef end) in
  set_both (mkSheetConfig (topicOrder c) (subTopicOrder c)
                          (questionOrder c ++ [_id newQuestion]))
           (questions s ++ [newQuestion]) s.

Definition editQuestion (questionId : string) (updates : PartialQuestion)
                        (s : QuestionState) : QuestionState :=
  set_questions
    (map (fun q => if String.eqb (_id q) questionId then merge q updates else q)
         (questions s)) s.

Definition deleteQuestion (questionId : string) (s : QuestionState)
  : QuestionState :=
  let c := config s in
  let updatedQuestions :=
    filter (fun q => negb (String.eqb (_id q) questionId)) (questions s) in
  let updatedQuestionOrder :=
    filter (fun id => negb (String.eqb id questionId)) (questionOrder c) in
  set_both (mkSheetConfig (topicOrder c) (subTopicOrder c) updatedQuestionOrder)
           updatedQuestions s.

Definition reorderQuestions (newOrder : list string) (s : QuestionState)
  : QuestionState :=
  let c := config s in
  set_config (mkSheetConfig (topicOrder c) (subTopicOrder c) newOrder) s.

Definition moveQuestionToSubTopic (questionId toTopic : string)
                                  (toSubTopic : option string)
                                  (s : QuestionState) : QuestionState :=
  set_questions
    (map (fun q =>
            if String.eqb (_id q) questionId
            then with_subTopic toSubTopic (with_topic toTopic q) else q)
         (questions s)) s.

(** *** Queries *)

Definition getQuestionsByTopic (topicName : string) (s : QuestionState)
  : list Question :=
  filter (fun q => String.eqb (topic q) topicName) (questions s).

Definition getQuestionsBySubTopic (topicName subTopicName : string)
                                  (s : QuestionState) : list Question :=
  filter (fun q => String.eqb (topic q) topicName
                   && opt_eqb (subTopic q) (Some subTopicName))
         (questions s).

(** *** The operation table as data *)

Inductive Action : Type :=
| AddTopic (topicName : string)
| EditTopic (oldName newName : string)
| DeleteTopic (topicName : string)
| ReorderTopics (newOrder : list string)
| AddSubTopic (topicName subTopicName : string)
| EditSubTopic (topicName oldName newName : string)
| DeleteSubTopic (topicName subTopicName : string)
| ReorderSubTopics (topicName : string) (newOrder : list string)
| MoveSubTopicToTopic (subTopicName fromTopic toTopic : string)
| AddQuestion (now : N) (question : PartialQuestion)
| EditQuestion (questionId : string) (updates : PartialQuestion)
| DeleteQuestion (questionId : string)
| ReorderQuestions (newOrder : list string)
| MoveQuestionToSubTopic (questionId toTopic : string) (toSubTopic : option string)
| FetchSheetData (r : Response).

Definition run (a : Action) : QuestionState -> QuestionState :=
  match a with
  | AddTopic t => addTopic t
  | EditTopic o n => editTopic o n
  | DeleteTopic t => deleteTopic t
  | ReorderTopics l => reorderTopics l
  | AddSubTopic t st => addSubTopic t st
  | EditSubTopic t o n => editSubTopic t o n
  | DeleteSubTopic t st => deleteSubTopic t st
  | ReorderSubTopics t l => reorderSubTopics t l
  | MoveSubTopicToTopic st f t => moveSubTopicToTopic st f t
  | AddQuestion now q => addQuestion now q
  | EditQuestion i u => editQuestion i u
  | DeleteQuestion i => deleteQuestion i
  | ReorderQuestions l => reorderQuestions l
  | MoveQuestionToSubTopic i t st => moveQuestionToSubTopic i t st
  | FetchSheetData r => fetchSheetData r
  end.

End QuestionStore.

(* ===================================================================== *)
(** ** Drag reconciliation: [handleDragEnd] of [Frontend/src/App.tsx] *)
(* ===================================================================== *)

Module App.

Import Js QuestionStore.

(** The result of [parseId]: a tagged union on [type]. *)
Inductive Parsed : Type :=
| PTopic (name : string)
| PSubtopic (topic : string) (subtopic : option string)
| PQuestion (id : string).

(** Format: ["topic:{name}" | "subtopic:{topic}:{subtopic}" | "question:{id}"].
    [parts[1]] is undefined when the text after ["subtopic:"] has no colon. *)
Definition parseId (id : string) : option Parsed :=
  if startsWith "topic:" id then
    Some (PTopic (substring_from 6 id))
  else if startsWith "subtopic:" id then
    let parts := split ":" (substring_from 9 id) in
    Some (PSubtopic (hd EmptyString parts) (nth_error parts 1))
  else if startsWith "question:" id then
    Some (PQuestion (substring_from 9 id))
  else None.

(** The [type] tag alone. *)
Inductive Kind : Type := KTopic | KSubtopic | KQuestion.

Definition kind (p : Parsed) : Kind :=
  match p with
  | PTopic _ => KTopic
  | PSubtopic _ _ => KSubtopic
  | PQuestion _ => KQuestion
  end.

(** A [DragEndEvent], reduced to the two identifiers; [over] may be null. *)
Record DragEndEvent : Type := mkDragEndEvent {
  active : string;
  over : option string
}.

(** The reorder idiom shared by the four reordering branches:
<<
      const oldIndex = order.indexOf(a);
      const newIndex = order.indexOf(b);
      if (oldIndex !== -1 && newIndex !== -1) { ...splice, splice...; commit }
>>
    [Some] the list to commit, or [None] when the guard fails. *)
Definition spliceReorder (a b : string) (order : list string)
  : option (list string) :=
  let oldIndex := indexOf a order in
  let newIndex := indexOf b order in
  if negb (oldIndex =? -1)%Z && negb (newIndex =? -1)%Z
  then Some (spliceMove oldIndex newIndex order)
  else None.

(** "Handle topic reordering".  [view] is the state the component rendered
    with ([config] and [questions] of the closure); [s] is the store. *)
Definition handleTopics (view : QuestionState) (activeParsed overParsed : Parsed)
                        (s : QuestionState) : QuestionState :=
  match activeParsed, overParsed with
  | PTopic aname, PTopic oname =>
      if nonempty aname && nonempty oname then
        match spliceReorder aname oname (topicOrder (config view)) with
        | Some newTopics => reorderTopics newTopics s
        | None => s
        end
      else s
  | _, _ => s
  end.

(** "Handle subtopic reordering or moving between topics".  When
    [config.subTopicOrder[fromTopic]] is an inherited member, [indexOf]
    throws and nothing is committed. *)
Definition handleSubTopics (view : QuestionState) (activeParsed overParsed : Parsed)
                           (s : QuestionState) : QuestionState :=
  match activeParsed, overParsed with
  | PSubtopic fromTopic (Some asub), PSubtopic toTopic (Some osub) =>
      if nonempty fromTopic && nonempty asub && nonempty toTopic && nonempty osub
      then
        if String.eqb fromTopic toTopic then
          match listAt fromTopic (subTopicOrder (config view)) with
          | Some subTopics =>
              match spliceReorder asub osub subTopics with
              | Some newSubTopics => reorderSubTopics fromTopic newSubTopics s
              | None => s
              end
          | None => s
          end
        else moveSubTopicToTopic asub fromTopic toTopic s
      else s
  | _, _ => s
  end.

(** "Handle question reordering or moving between subtopics". *)
Definition handleQuestions (view : QuestionState) (activeParsed overParsed : Parsed)
                           (s : QuestionState) : QuestionState :=
  match activeParsed, overParsed with
  | PQuestion aid, PQuestion oid =>
      if nonempty aid && nonempty oid then
        match find (fun q => String.eqb (_id q) aid) (questions view),
              find (fun q => String.eqb (_id q) oid) (questions view) with
        | Some activeQuestion, Some overQuestion =>
            let sameTopic := String.eqb (topic activeQuestion) (topic overQuestion) in
            let sameSubTopic :=
              opt_eqb (subTopic activeQuestion) (subTopic overQuestion) in
            if sameTopic && sameSubTopic then
              match spliceReorder aid oid (questionOrder (config view)) with
              | Some newQuestions => reorderQuestions newQuestions s
              | None => s
              end
            else
              let s' := moveQuestionToSubTopic aid (topic overQuestion)
                                               (subTopic overQuestion) s in
              match spliceReorder aid oid (questionOrder (config view)) with
              | Some newQuestions => reorderQuestions newQuestions s'
              | None => s'
              end
        | _, _ => s
        end
      else s
  | _, _ => s
  end.

Definition handleDragEnd_from (view : QuestionState) (event : DragEndEvent)
                              (s : QuestionState) : QuestionState :=
  match over event with
  | None => s
  | Some overId =>
      let activeId := active event in
      if String.eqb activeId overId then s
      else
        match parseId activeId, parseId overId with
        | Some activeParsed, Some overParsed =>
            handleQuestions view activeParsed overParsed
              (handleSubTopics view activeParsed overParsed
                 (handleTopics view activeParsed overParsed s))
        | _, _ => s
        end
  end.

(** The handler of an up-to-date render: the closure holds the store's
    current [config] and [questions]. *)
Definition handleDragEnd (event : DragEndEvent) (s : QuestionState)
  : QuestionState :=
  handleDragEnd_from s event s.

End App.

(* ===================================================================== *)
(** ** The components: what their handlers ask of the store

    [Frontend/src/components/Question.tsx] ([QuestionItem],
    [AddQuestionForm], [TopicItem], [AddTopicForm]), the sub-topic component
    file ([SubTopicItem], [AddSubTopicForm]) and the shared [EditForm].
    A handler is modelled by its effect on the store; [alert], [onClose] and
    the local [useState] flags are left out.  The answer of
    [window.confirm] is an argument. *)
(* ===================================================================== *)

Module EditForm.

Import Js.

(** What [handleSave] calls: [onSave(value.trim())] or [onCancel()]. *)
Inductive Outcome : Type :=
| onSave (value : string)
| onCancel.

Definition handleSave (value initialValue : string) : Outcome :=
  if nonempty (trim value) && negb (String.eqb value initialValue)
  then onSave (trim value)
  else onCancel.

End EditForm.

Module AddTopicForm.

Import Js QuestionStore.

Definition handleSubmit (topicName : string) (s : QuestionState) : QuestionState :=
  if negb (nonempty (trim topicName)) then s
  else addTopic (trim topicName) s.

End AddTopicForm.

Module AddSubTopicForm.

Import Js QuestionStore.

Definition handleSubmit (topicName subTopicName : string) (s : QuestionState)
  : QuestionState :=
  if negb (nonempty (trim subTopicName)) then s
  else addSubTopic topicName (trim subTopicName) s.

End AddSubTopicForm.

Module AddQuestionForm.

Import Js QuestionStore.

(** The object literal handed to [addQuestion]; [x || undefined] leaves the
    field undefined when [x] is empty or null. *)
Definition submitted (topicName : string) (subTopicName : option string)
                     (title resource : string) : PartialQuestion :=
  mkPartialQuestion
    None
    (Some (trim title))
    (Some topicName)
    (match subTopicName with
     | Some st => if nonempty st then Some (Some st) else None
     | None => None
     end)
    (if nonempty (trim resource) then Some (Some (trim resource)) else None)
    None.

Definition handleSubmit (now : N) (topicName : string)
                        (subTopicName : option string)
                        (title resource : string) (s : QuestionState)
  : QuestionState :=
  if negb (nonempty (trim title)) then s
  else addQuestion now (submitted topicName subTopicName title resource) s.

End AddQuestionForm.

Module QuestionItem.

Import Js QuestionStore.

(** [editQuestion(question._id, { title: editedTitle, resource: editedResource })] *)
Definition handleSave (question : Question) (editedTitle editedResource : string)
                      (s : QuestionState) : QuestionState :=
  editQuestion (_id question)
    (mkPartialQuestion None (Some editedTitle) None None
                       (Some (Some editedResource)) None) s.

(** The initial value of the resource field: [question.resource || ""]. *)
Definition initialResource (question : Question) : string :=
  match resource question with
  | Some r => r
  | None => EmptyString
  end.

Definition handleDelete (confirmed : bool) (question : Question)
                        (s : QuestionState) : QuestionState :=
  if confirmed then deleteQuestion (_id question) s else s.

End QuestionItem.

Module SubTopicItem.

Import Js QuestionStore.

(** The questions listed under the sub-topic. *)
Definition questions (topicName subTopicName : string) (s : QuestionState)
  : list Question :=
  getQuestionsBySubTopic topicName subTopicName s.

(** The [EditForm] of the sub-topic, with [initialValue = subTopicName] and
    [onSave = newName => editSubTopic(topicName, subTopicName, newName)]. *)
Definition handleEdit (topicName subTopicName value : string) (s : QuestionState)
  : QuestionState :=
  match EditForm.handleSave value subTopicName with
  | EditForm.onSave newName => editSubTopic topicName subTopicName newName s
  | EditForm.onCancel => s
  end.

Definition handleDelete (confirmed : bool) (topicName subTopicName : string)
                        (s : QuestionState) : QuestionState :=
  if confirmed then deleteSubTopic topicName subTopicName s else s.

End SubTopicItem.

Module TopicItem.

Import Js QuestionStore.

(** [config.subTopicOrder[topicName] || []]: a list, or a member inherited
    from [Object.prototype]. *)
Definition subTopics (topicName : string) (s : QuestionState)
  : list string + Inherited :=
  match read topicName (subTopicOrder (config s)) with
  | Own l => inl l
  | Undefined => inl []
  | FromPrototype i => inr i
  end.

Definition allTopicQuestions (topicName : string) (s : QuestionState)
  : list Question :=
  getQuestionsByTopic topicName s.

(** [!q.subTopic]: null, or the empty string. *)
Definition noSubTopic (q : Question) : bool :=
  match subTopic q with
  | Some st => negb (nonempty st)
  | None => true
  end.

Definition questionsWithoutSubTopic (topicName : string) (s : QuestionState)
  : list Question :=
  filter noSubTopic (allTopicQuestions topicName s).

(** [subTopics.length > 0]; the [length] of a function is its arity, and
    [Object.prototype] has none. *)
Definition hasSubTopics (topicName : string) (s : QuestionState) : bool :=
  match subTopics topicName s with
  | inl l => (0 <? length l)%nat
  | inr (Method arity) => (0 <? arity)%nat
  | inr PrototypeObject => false
  end.

(** The [QuestionItem]s under the topic once everything is expanded, top to
    bottom: with sub-topics, those of each [SubTopicItem] in the order of
    [subTopics]; without, [questionsWithoutSubTopic].  [None] when
    rendering throws ([subTopics.map] on an inherited function). *)
Definition shownQuestions (topicName : string) (s : QuestionState)
  : option (list Question) :=
  if hasSubTopics topicName s then
    match subTopics topicName s with
    | inl l =>
        Some (flat_map (fun subTopic => SubTopicItem.questions topicName subTopic s)
                       l)
    | inr _ => None
    end
  else Some (questionsWithoutSubTopic topicName s).

(** The [EditForm] of the topic, with [initialValue = topicName] and
    [onSave = newName => editTopic(topicName, newName)]. *)
Definition handleEdit (topicName value : string) (s : QuestionState)
  : QuestionState :=
  match EditForm.handleSave value topicName with
  | EditForm.onSave newName => editTopic topicName newName s
  | EditForm.onCancel => s
  end.

Definition handleDelete (confirmed : bool) (topicName : string)
                        (s : QuestionState) : QuestionState :=
  if confirmed then deleteTopic topicName s else s.

End TopicItem.

Import Js QuestionStore App.

(* ===================================================================== *)
(** ** Sample data *)
(* ===================================================================== *)

Definition sampleQuestion (id t : string) (st : option string) : Question :=
  mkQuestion id "Two Sum" t st None defaultRef.

Definition stateOf (topics : list string) (subs : obj (list string))
                   (order : list string) (qs : list Question) : QuestionState :=
  mkQuestionState (mkSheetConfig topics subs order) qs false None.

(* ===================================================================== *)
(** ** Vocabulary of the statements *)
(* ===================================================================== *)

Definition partsExample : list string :=
  ["Arrays"; "DP Part-I"; "DP Part-II"; "Graphs"].

(** What the payload lacks, in the order of the source's safety check
    [!config || !config.topicOrder || !questions]. *)
Definition lacksField (d : SheetData) : Prop :=
  sheet_config d = None
  \/ (exists cfg, sheet_config d = Some cfg /\ raw_topicOrder cfg = None)
  \/ data_questions d = None.



(** One of the two ids of a question-onto-question gesture names no
    question of the collection the handler sees. *)
Definition unresolved (view : QuestionState) (aid oid : string) : Prop :=
  find (fun q => String.eqb (_id q) aid) (questions view) = None
  \/ find (fun q => String.eqb (_id q) oid) (questions view) = None.

(** The gestures that are to have no effect. *)
Definition inertGesture (s : QuestionState) (a o : string) : Prop :=
  parseId a = None
  \/ parseId o = None
  \/ a = o
  \/ (exists pa po, parseId a = Some pa /\ parseId o = Some po
                    /\ kind pa <> kind po)
  \/ (exists aid oid, parseId a = Some (PQuestion aid)
                      /\ parseId o = Some (PQuestion oid)
                      /\ unresolved s aid oid).

Definition gestureState : QuestionState :=
  stateOf ["A"; "B"] [("A", ["s1"])] ["q1"; "q2"]
          [sampleQuestion "q1" "A" (Some "s1"); sampleQuestion "q2" "B" None].

(** Renaming [oldName] to [newName] in [l] runs into a name already there. *)
Definition collides (oldName newName : string) (l : list string) : Prop :=
  In oldName l /\ In newName l /\ oldName <> newName.

(** What an action needs for the topic order to stay free of duplicates:
    a rename must not collide, a reorder must bring a duplicate-free list. *)
Definition keepsTopicsDistinct (a : Action) (s : QuestionState) : Prop :=
  match a with
  | EditTopic oldName newName =>
      ~ collides oldName newName (topicOrder (config s))
  | ReorderTopics newOrder => NoDup newOrder
  | _ => True
  end.

(** The name has no colon, the separator of the drag identifiers. *)
Definition noColon (s : string) : bool :=
  forallb_str (fun c => negb (Ascii.eqb c ":")) s.

(** Two questions that differ at most by their container. *)
Definition sameButContainer (q q' : Question) : Prop :=
  _id q' = _id q /\ title q' = title q /\ resource q' = resource q
  /\ questionId q' = questionId q.

(** [s'] differs from [s] at most by the sub-topic lists and by the
    containers of the questions. *)
Definition relabels (s s' : QuestionState) : Prop :=
  topicOrder (config s') = topicOrder (config s)
  /\ questionOrder (config s') = questionOrder (config s)
  /\ Forall2 sameButContainer (questions s) (questions s')
  /\ loading s' = loading s
  /\ error s' = error s.

Definition topicEvent (a b : string) : DragEndEvent :=
  mkDragEndEvent ("topic:" ++ a)%string (Some ("topic:" ++ b)%string).


Definition questionEvent (a b : string) : DragEndEvent :=
  mkDragEndEvent ("question:" ++ a)%string (Some ("question:" ++ b)%string).

(** The id [addQuestion] gives at clock reading [now]. *)
Definition tempId (now : N) : string :=
  ("temp_" ++ DecimalString.NilEmpty.string_of_uint (N.to_uint now))%string.

(** questionOrder and the collection agree: no id twice in either, and the
    same ids in both. *)
Definition itemsConsistent (s : QuestionState) : Prop :=
  NoDup (questionOrder (config s))
  /\ NoDup (map _id (questions s))
  /\ forall id, In id (questionOrder (config s)) <-> In id (map _id (questions s)).

(** The same for a payload that passes the safety check. *)
Definition payloadConsistent (r : Response) : Prop :=
  match r with
  | Rejected _ => True
  | Resolved d =>
      match sheet_config d, data_questions d with
      | Some cfg, Some qs =>
          match raw_questionOrder cfg with
          | Some order =>
              NoDup order /\ NoDup (map _id qs)
              /\ forall id, In id order <-> In id (map _id qs)
          | None => qs = []
          end
      | _, _ => True
      end
  end.

(** What an action needs to keep [itemsConsistent]: a fresh id for a new
    question, no change of id in an edit, a permutation in a reorder, a
    consistent payload in a fetch. *)
Definition keepsItemsConsistent (a : Action) (s : QuestionState) : Prop :=
  match a with
  | AddQuestion now _ => ~ In (tempId now) (questionOrder (config s))
  | EditQuestion _ updates => p_id updates = None
  | ReorderQuestions newOrder => Permutation newOrder (questionOrder (config s))
  | FetchSheetData r => payloadConsistent r
  | _ => True
  end.






Definition notSpace (c : ascii) : bool := negb (is_space c).

(** The string is empty or its last character is not a space. *)
Fixpoint endsClean (s : string) : bool :=
  match s with
  | EmptyString => true
  | String c EmptyString => notSpace c
  | String _ r => endsClean r
  end.

Definition noLineTerminator (s : string) : bool :=
  forallb_str (fun c => negb (is_line_terminator c)) s.

(** Every entry of the mapping points to a container that exists: its
    topic is in the order list, and its sub-topic, if any, is listed under
    that topic with at least one companion. *)
Definition mappingSound (t : Transformed) : Prop :=
  (forall k l, get k (transformedSubTopicOrder t) = Some l ->
               In k (transformedTopicOrder t) /\ (2 <= length l)%nat)
  /\ (forall k m, get k (topicMapping t) = Some m ->
        In (m_topic m) (transformedTopicOrder t)
        /\ match m_subtopic m with
           | Some st => In st (get_or_empty (m_topic m) (transformedSubTopicOrder t))
           | None => True
           end).

(** A payload that passes the safety check. *)
Definition goodPayload (all : list string) (order : option (list string))
                       (qs : list Question) : Response :=
  Resolved (mkSheetData (Some (mkRawConfig (Some all) order)) (Some qs)).

(** The group key under which the first pass files a flat topic name. *)
Definition partBase (t : string) : string :=
  match partMatch t with
  | Some g1 => trim g1
  | None => t
  end.

(** What the first pass puts in a group it creates for [t]. *)
Definition groupOf (all : list string) (t : string) : list string :=
  match partMatch t with
  | Some _ => [t]
  | None =>
      if existsb (fun t' => startsWith (t ++ " Part-")%string t') all
      then [t] else []
  end.

(** The body of the effect of [App]
<<
      useEffect(() => {
        if (config.topicOrder.length === 0) { fetchSheetData(); }
      }, [fetchSheetData, config.topicOrder.length]);
>>
    run on state [s] with a request that settles as [r]. *)
Definition fetchIfEmpty (r : Response) (s : QuestionState) : QuestionState :=
  if (length (topicOrder (config s)) =? 0)%nat then fetchSheetData r s else s.

(** [{ ...q, resource: r }] *)
Definition with_resource (r : option string) (q : Question) : Question :=
  mkQuestion (_id q) (title q) (topic q) (subTopic q) r (questionId q).

(** [k] can be read as a list in [o]: it has an entry of its own, or it is
    not the name of a member of [Object.prototype]. *)
Definition listable (k : string) (o : obj (list string)) : Prop :=
  get k o <> None \/ inherited k = None.

(** No question is tagged with the name of a member of [Object.prototype]. *)
Definition plainTopics (qs : list Question) : Prop :=
  forall q, In q qs -> inherited (topic q) = None.

(* ===================================================================== *)
(** ** Facts about the primitives *)
(* ===================================================================== *)

Section ObjectFacts.

Context {V : Type}.
Implicit Types (o : obj V) (k : string) (v : V).

Lemma get_set_same k v o : get k (set k v o) = Some v.
Proof.
  induction o as [|[k' v'] r IH]; simpl.
  - now rewrite String.eqb_refl.
  - destruct (String.eqb k' k) eqn:E; simpl; rewrite E; auto.
Qed.

Lemma get_set_other k k' v o : k' <> k -> get k' (set k v o) = get k' o.
Proof.
  intros Hne.
  induction o as [|[k0 v0] r IH]; simpl.
  - destruct (String.eqb k k') eqn:E; auto.
    apply String.eqb_eq in E; congruence.
  - destruct (String.eqb k0 k) eqn:E; simpl.
    + apply String.eqb_eq in E; subst k0.
      destruct (String.eqb k k') eqn:E'; auto.
      apply String.eqb_eq in E'; congruence.
    + now rewrite IH.
Qed.

Lemma get_delete_same k o : get k (delete k o) = None.
Proof.
  induction o as [|[k' v'] r IH]; simpl; auto.
  destruct (String.eqb k' k) eqn:E; simpl; auto.
  now rewrite E.
Qed.

Lemma get_delete_other k k' o : k' <> k -> get k' (delete k o) = get k' o.
Proof.
  intros Hne.
  induction o as [|[k0 v0] r IH]; simpl; auto.
  destruct (String.eqb k0 k) eqn:E; simpl.
  - apply String.eqb_eq in E; subst k0.
    destruct (String.eqb k k') eqn:E'; auto.
    apply String.eqb_eq in E'; congruence.
  - now rewrite IH.
Qed.

Lemma get_none_notin k o : get k o = None <-> ~ In k (map fst o).
Proof.
  induction o as [|[k' v'] r IH]; simpl.
  - tauto.
  - destruct (String.eqb k' k) eqn:E.
    + apply String.eqb_eq in E. split; [discriminate | tauto].
    + apply String.eqb_neq in E. rewrite IH. tauto.
Qed.

(** Writing a property either keeps the key list or extends it by a new
    key. *)
Lemma set_fst k v o :
  map fst (set k v o) =
  match get k o with Some _ => map fst o | None => map fst o ++ [k] end.
Proof.
  induction o as [|[k' v'] r IH]; simpl; auto.
  destruct (String.eqb k' k) eqn:E; simpl; auto.
  rewrite IH. now destruct (get k r).
Qed.

Lemma wf_empty : wf (@empty V).
Proof. constructor. Qed.

Lemma wf_set k v o : wf o -> wf (set k v o).
Proof.
  unfold wf. intros H. rewrite set_fst.
  destruct (get k o) eqn:E; auto.
  apply get_none_notin in E.
  apply NoDup_rev in H. rewrite <- (rev_involutive (_ ++ _)).
  apply NoDup_rev. rewrite rev_app_distr. simpl.
  constructor; auto. now rewrite <- in_rev.
Qed.

Lemma insert_index_perm n k (l : list (N * string)) :
  Permutation (insert_index n k l) ((n, k) :: l).
Proof.
  induction l as [|[m k'] r IH]; simpl; auto.
  destruct (n <=? m)%N; auto.
  rewrite IH. apply perm_swap.
Qed.

(** [Object.keys] lists every own key once, whatever the order. *)
Lemma keys_perm o : Permutation (keys o) (map fst o).
Proof.
  unfold keys.
  induction o as [|[k v] r IH]; simpl; auto.
  destruct (array_index k).
  - rewrite insert_index_perm. simpl. now constructor.
  - rewrite <- Permutation_middle. now constructor.
Qed.

Lemma keys_NoDup o : wf o -> NoDup (keys o).
Proof.
  intros H. eapply Permutation_NoDup; [symmetry; apply keys_perm | exact H].
Qed.

Lemma assign_set k v o : k <> "__proto__" -> assign k v o = set k v o.
Proof.
  intros H. unfold assign. destruct (get k o); [reflexivity|].
  apply String.eqb_neq in H. now rewrite H.
Qed.

(** A plain assignment writes the property or leaves the object as it is. *)
Lemma assign_cases k v o : assign k v o = set k v o \/ assign k v o = o.
Proof.
  unfold assign. destruct (get k o); [now left|].
  destruct (String.eqb k "__proto__"); [now right | now left].
Qed.

Lemma wf_assign k v o : wf o -> wf (assign k v o).
Proof.
  intros H. destruct (assign_cases k v o) as [-> | ->]; [now apply wf_set | exact H].
Qed.


Lemma read_plain k o : inherited k = None ->
  read k o = match get k o with Some v => Own v | None => Undefined end.
Proof. intros H. unfold read. now rewrite H. Qed.

End ObjectFacts.

Section ArrayFacts.

Lemma includes_In x l : includes x l = true <-> In x l.
Proof.
  unfold includes. rewrite existsb_exists. split.
  - intros [y [Hy E]]. apply String.eqb_eq in E. now subst.
  - intros H. exists x. split; auto. apply String.eqb_refl.
Qed.

Lemma indexOf_range x l :
  (indexOf x l = -1 \/ 0 <= indexOf x l < Z.of_nat (length l))%Z.
Proof.
  induction l as [|y r IH]; simpl; auto.
  destruct (String.eqb y x); [right; lia|].
  destruct (indexOf x r <? 0)%Z eqn:E; [left; reflexivity|].
  apply Z.ltb_ge in E. right. lia.
Qed.

Lemma indexOf_In x l : indexOf x l <> (-1)%Z <-> In x l.
Proof.
  induction l as [|y r IH]; simpl.
  - split; [congruence | tauto].
  - destruct (String.eqb y x) eqn:E.
    + apply String.eqb_eq in E. split; [auto | discriminate].
    + apply String.eqb_neq in E.
      destruct (indexOf_range x r) as [H|H].
      * rewrite H in *. simpl. split; [congruence|].
        intros [?|?]; [congruence | tauto].
      * destruct (indexOf x r <? 0)%Z eqn:E'; [apply Z.ltb_lt in E'; lia|].
        split; [intros _; right; apply IH; lia | lia].
Qed.

Lemma filter_id {A : Type} (p : A -> bool) (l : list A) :
  (forall x, In x l -> p x = true) -> filter p l = l.
Proof.
  induction l as [|x r IH]; simpl; intros H; auto.
  rewrite (H x) by auto. f_equal. auto.
Qed.

Lemma NoDup_snoc {A : Type} (x : A) (l : list A) :
  NoDup l -> ~ In x l -> NoDup (l ++ [x]).
Proof.
  intros Hl Hx. apply NoDup_rev in Hl.
  rewrite <- (rev_involutive (l ++ [x])). apply NoDup_rev.
  rewrite rev_app_distr. simpl. constructor; auto. now rewrite <- in_rev.
Qed.

End ArrayFacts.

(* ===================================================================== *)
(** ** Reading a sub-topic list: [subTopicOrder[k] || []] *)
(* ===================================================================== *)

Lemma listAt_listable (k : string) (o : obj (list string)) :
  listable k o -> listAt k o = Some (get_or_empty k o).
Proof.
  unfold listable, listAt, read, get_or_empty.
  destruct (get k o) as [l|]; [reflexivity|].
  intros [H | H]; [congruence | now rewrite H].
Qed.


Lemma listAt_some (k : string) (o : obj (list string)) (l : list string) :
  listAt k o = Some l -> l = get_or_empty k o /\ listable k o.
Proof.
  unfold listable, listAt, read, get_or_empty.
  destruct (get k o) as [l'|].
  - intros [= <-]. split; [reflexivity | left; discriminate].
  - destruct (inherited k); [discriminate|].
    intros [= <-]. split; [reflexivity | now right].
Qed.


Lemma listable_dec (k : string) (o : obj (list string)) :
  listable k o \/ ~ listable k o.
Proof.
  destruct (listAt k o) as [l|] eqn:E.
  - left. apply (listAt_some k o l E).
  - right. intros H. rewrite (listAt_listable k o H) in E. discriminate.
Qed.

(* ===================================================================== *)
(** ** Ingestion *)
(* ===================================================================== *)

Lemma transform_partsExample :
  transform partsExample =
  inl (mkTransformed
    ["Arrays"; "DP"; "Graphs"]
    [("DP", ["DP Part-I"; "DP Part-II"])]
    [("Arrays", mkMapping "Arrays" None);
     ("DP Part-I", mkMapping "DP" (Some "DP Part-I"));
     ("DP Part-II", mkMapping "DP" (Some "DP Part-II"));
     ("Graphs", mkMapping "Graphs" None)]).
Proof. vm_compute. reflexivity. Qed.

(** C4.  Ingesting a payload whose flat topic list is
    ["Arrays", "DP Part-I", "DP Part-II", "Graphs"] (whatever its questions,
    its question order and the state before) leaves the store with
    topicOrder = ["Arrays", "DP", "Graphs"] and with a subTopicOrder whose
    only key is "DP", bound to ["DP Part-I", "DP Part-II"]; the standalone
    topics "Arrays" and "Graphs" have no entry. *)
Theorem fetchSheetData_part_detection
    (order : option (list string)) (qs : list Question) (s : QuestionState) :
  let d := mkSheetData (Some (mkRawConfig (Some partsExample) order)) (Some qs) in
  let c := config (fetchSheetData (Resolved d) s) in
  topicOrder c = ["Arrays"; "DP"; "Graphs"]
  /\ subTopicOrder c = [("DP", ["DP Part-I"; "DP Part-II"])]
  /\ keys (subTopicOrder c) = ["DP"]
  /\ get "DP" (subTopicOrder c) = Some ["DP Part-I"; "DP Part-II"]
  /\ get "Arrays" (subTopicOrder c) = None
  /\ get "Graphs" (subTopicOrder c) = None.
Proof.
  unfold fetchSheetData, fetchSheetData_settle, ingest.
  cbn [sheet_config data_questions raw_topicOrder raw_questionOrder].
  rewrite transform_partsExample.
  cbn [config topicOrder subTopicOrder transformedTopicOrder
       transformedSubTopicOrder].
  repeat split.
Qed.

Lemma ingest_lacksField (d : SheetData) :
  lacksField d ->
  ingest (Resolved d) = inr (ErrorObject "Invalid data structure from API").
Proof.
  unfold lacksField, ingest.
  intros [H | [[cfg [H1 H2]] | H]].
  - now rewrite H.
  - rewrite H1, H2. now destruct (data_questions d).
  - rewrite H. now destruct (sheet_config d).
Qed.

(** C5.  When the fetched payload lacks [config], [config.topicOrder] or
    [questions], the fetch ends with a non-null error message and
    [loading = false], and [config] and [questions] are those of the state
    before: nothing of the payload is committed.  The same holds for the
    settling step taken from any intermediate state. *)
Theorem fetchSheetData_missing_fields (d : SheetData) (s : QuestionState) :
  lacksField d ->
  (let s' := fetchSheetData (Resolved d) s in
   error s' = Some "Invalid data structure from API"
   /\ error s' <> None
   /\ loading s' = false
   /\ config s' = config s
   /\ questions s' = questions s)
  /\ (forall s1,
        let s' := fetchSheetData_settle (Resolved d) s1 in
        error s' <> None /\ loading s' = false
        /\ config s' = config s1 /\ questions s' = questions s1).
Proof.
  intros H. unfold fetchSheetData, fetchSheetData_settle.
  rewrite (ingest_lacksField d H). simpl.
  repeat split; try reflexivity; discriminate.
Qed.

Lemma fetchSheetData_missing_fields_witness :
  let d := mkSheetData (Some (mkRawConfig None (Some ["q1"]))) (Some []) in
  let s := stateOf ["Arrays"] empty ["q1"] [sampleQuestion "q1" "Arrays" None] in
  lacksField d
  /\ error (fetchSheetData (Resolved d) s) = Some "Invalid data structure from API"
  /\ config (fetchSheetData (Resolved d) s) = config s.
Proof.
  assert (H : lacksField (mkSheetData (Some (mkRawConfig None (Some ["q1"])))
                                      (Some []))).
  { right; left. eexists. split; reflexivity. }
  split; [exact H|].
  pose proof (fetchSheetData_missing_fields _
                (stateOf ["Arrays"] empty ["q1"]
                         [sampleQuestion "q1" "Arrays" None]) H) as [P _].
  split; [exact (proj1 P) | exact (proj1 (proj2 (proj2 (proj2 P))))].
Defined.

(* ===================================================================== *)
(** ** Deleting *)
(* ===================================================================== *)

(** The ids that [deleteTopic] keeps in questionOrder: those borne by a
    surviving question. *)
Lemma deleteTopic_order_kept (C : string) (s : QuestionState) (id : string) :
  In id (questionOrder (config (deleteTopic C s))) <->
  In id (questionOrder (config s))
  /\ exists q, In q (questions (deleteTopic C s)) /\ _id q = id.
Proof.
  simpl. rewrite filter_In, existsb_exists.
  split; intros [H1 [q [Hq E]]]; (split; [exact H1|]); exists q;
    (split; [exact Hq|]); now apply String.eqb_eq.
Qed.

(** C3, as stated, fails in its last part.  A fetch whose payload has no
    questionOrder leaves the store with questionOrder = [] and two questions;
    after [deleteTopic "A"] the question of topic "B" remains in the
    collection and its id is not in questionOrder. *)
Lemma deleteTopic_survivor_unlisted :
  let d := mkSheetData (Some (mkRawConfig (Some ["A"; "B"]) None))
                       (Some [sampleQuestion "qA" "A" None;
                              sampleQuestion "qB" "B" None]) in
  let s := fetchSheetData (Resolved d) initial in
  let s' := deleteTopic "A" s in
  error s = None
  /\ questions s = [sampleQuestion "qA" "A" None; sampleQuestion "qB" "B" None]
  /\ questions s' = [sampleQuestion "qB" "B" None]
  /\ questionOrder (config s') = []
  /\ ~ (forall q, In q (questions s') -> In (_id q) (questionOrder (config s'))).
Proof.
  split; [reflexivity|]. split; [reflexivity|]. split; [reflexivity|].
  split; [reflexivity|].
  intros H. exact (H (sampleQuestion "qB" "B" None) (or_introl eq_refl)).
Qed.

(** C3, amended.  [deleteTopic C] filters [C] out of topicOrder, deletes the
    subTopicOrder entry of [C] and no other, keeps the questions whose topic
    is not [C], in their order, and keeps in questionOrder, in their order,
    the ids borne by a surviving question; the two flags are untouched.
    Hence every id listed afterwards is borne by a surviving question; and
    the id of every surviving question is listed afterwards provided the id
    of every question was listed before. *)
Theorem deleteTopic_cascade (C : string) (s : QuestionState) :
  let s' := deleteTopic C s in
  topicOrder (config s')
    = filter (fun t => negb (String.eqb t C)) (topicOrder (config s))
  /\ ~ In C (topicOrder (config s'))
  /\ subTopicOrder (config s') = delete C (subTopicOrder (config s))
  /\ get C (subTopicOrder (config s')) = None
  /\ (forall k, k <> C ->
        get k (subTopicOrder (config s')) = get k (subTopicOrder (config s)))
  /\ questions s'
       = filter (fun q => negb (String.eqb (topic q) C)) (questions s)
  /\ (forall q, In q (questions s') -> topic q <> C)
  /\ questionOrder (config s')
       = filter (fun id => existsb (fun q => String.eqb (_id q) id)
                                   (questions s'))
                (questionOrder (config s))
  /\ loading s' = loading s
  /\ error s' = error s
  /\ (forall id, In id (questionOrder (config s')) ->
                 exists q, In q (questions s') /\ _id q = id)
  /\ ((forall q, In q (questions s) -> In (_id q) (questionOrder (config s))) ->
      forall id, In id (questionOrder (config s')) <->
                 exists q, In q (questions s') /\ _id q = id).
Proof.
  intros s'.
  assert (Hq : forall q, In q (questions s') -> In q (questions s) /\ topic q <> C).
  { intros q H. subst s'. simpl in H. apply filter_In in H as [H1 H2].
    apply negb_true_iff, String.eqb_neq in H2. tauto. }
  split; [reflexivity|]. split.
  { subst s'. simpl. intros H. apply filter_In in H as [_ H].
    apply negb_true_iff, String.eqb_neq in H. congruence. }
  split; [reflexivity|]. split; [apply get_delete_same|]. split.
  { intros k Hk. now apply get_delete_other. }
  split; [reflexivity|]. split; [intros q H; apply (Hq q H)|].
  split; [reflexivity|]. split; [reflexivity|]. split; [reflexivity|]. split.
  { intros id H. apply deleteTopic_order_kept in H. tauto. }
  intros Inv id. split.
  - intros H. apply deleteTopic_order_kept in H. tauto.
  - intros [q [H E]]. apply deleteTopic_order_kept. split.
    + subst id. apply Inv. apply (Hq q H).
    + eauto.
Qed.

Lemma deleteTopic_cascade_witness :
  let s := stateOf ["A"; "B"] [("A", ["A1"])] ["q1"; "q2"]
                   [sampleQuestion "q1" "A" (Some "A1");
                    sampleQuestion "q2" "B" None] in
  get "B" (subTopicOrder (config (deleteTopic "A" s)))
  = get "B" (subTopicOrder (config s))
  /\ (In "q2" (questionOrder (config (deleteTopic "A" s))) <->
      exists q, In q (questions (deleteTopic "A" s)) /\ _id q = "q2").
Proof.
  intros s.
  destruct (deleteTopic_cascade "A" s)
    as [_ [_ [_ [_ [H [_ [_ [_ [_ [_ [_ K]]]]]]]]]]].
  split.
  - apply H. discriminate.
  - apply K. intros q [<- | [<- | []]]; simpl; tauto.
Defined.







(* ===================================================================== *)
(** ** Moving a sub-topic to another topic *)
(* ===================================================================== *)

Lemma opt_eqb_eq (a b : option string) : opt_eqb a b = true <-> a = b.
Proof.
  destruct a, b; simpl; try (split; congruence).
  rewrite String.eqb_eq. split; congruence.
Qed.


Lemma Forall2_map_self {A : Type} (R : A -> A -> Prop) (f : A -> A) (l : list A) :
  (forall x, R x (f x)) -> Forall2 R l (map f l).
Proof. intros H. induction l; simpl; constructor; auto. Qed.




(* ===================================================================== *)
(** ** Drag reconciliation *)
(* ===================================================================== *)

Lemma handleTopics_other_kind (view : QuestionState) (pa po : Parsed)
                              (s : QuestionState) :
  kind pa <> KTopic \/ kind po <> KTopic -> handleTopics view pa po s = s.
Proof. destruct pa, po; simpl; intros [H | H]; congruence. Qed.

Lemma handleSubTopics_other_kind (view : QuestionState) (pa po : Parsed)
                                 (s : QuestionState) :
  kind pa <> KSubtopic \/ kind po <> KSubtopic ->
  handleSubTopics view pa po s = s.
Proof.
  destruct pa as [| ? [?|] |], po as [| ? [?|] |]; simpl;
    intros [H | H]; congruence.
Qed.

Lemma handleQuestions_other_kind (view : QuestionState) (pa po : Parsed)
                                 (s : QuestionState) :
  kind pa <> KQuestion \/ kind po <> KQuestion ->
  handleQuestions view pa po s = s.
Proof. destruct pa, po; simpl; intros [H | H]; congruence. Qed.

(** The three blocks of the handler leave the store alone when the two
    parsed identifiers are of different kinds. *)
Lemma handlers_kind_mismatch (view : QuestionState) (pa po : Parsed)
                             (s : QuestionState) :
  kind pa <> kind po ->
  handleQuestions view pa po
    (handleSubTopics view pa po (handleTopics view pa po s)) = s.
Proof.
  intros H.
  rewrite handleTopics_other_kind, handleSubTopics_other_kind,
          handleQuestions_other_kind; auto;
    destruct pa, po; simpl in *; try congruence;
    (left; discriminate) || (right; discriminate).
Qed.

Lemma handleQuestions_unresolved (view : QuestionState) (aid oid : string)
                                 (s : QuestionState) :
  unresolved view aid oid ->
  handleQuestions view (PQuestion aid) (PQuestion oid) s = s.
Proof.
  unfold unresolved, handleQuestions. intros [H | H]; rewrite H.
  - now destruct (nonempty aid && nonempty oid).
  - destruct (nonempty aid && nonempty oid); [|reflexivity].
    now destruct (find (fun q => String.eqb (_id q) aid) (questions view)).
Qed.

(** C8.  A gesture leaves the whole store state as it is when either
    identifier does not parse, when the two identifiers are equal, when they
    are of different kinds, or when both name questions and one of the ids
    is borne by no question of the collection.  (So does a gesture with no
    drop target.) *)
Theorem handleDragEnd_inert (a o : string) (s : QuestionState) :
  inertGesture s a o ->
  handleDragEnd (mkDragEndEvent a (Some o)) s = s
  /\ handleDragEnd (mkDragEndEvent a None) s = s.
Proof.
  intros H. split; [|reflexivity].
  unfold handleDragEnd, handleDragEnd_from. simpl.
  destruct (String.eqb a o) eqn:E; [reflexivity|].
  destruct H as [H | [H | [H | [H | H]]]].
  - now rewrite H.
  - rewrite H. now destruct (parseId a).
  - apply String.eqb_neq in E. contradiction.
  - destruct H as [pa [po [Ha [Ho Hk]]]]. rewrite Ha, Ho.
    now apply handlers_kind_mismatch.
  - destruct H as [aid [oid [Ha [Ho Hu]]]]. rewrite Ha, Ho.
    cbn [handleTopics handleSubTopics].
    now apply handleQuestions_unresolved.
Qed.

Lemma handleDragEnd_inert_witness :
  (* an identifier that does not parse *)
  handleDragEnd (mkDragEndEvent "chapter:A" (Some "topic:B")) gestureState
    = gestureState
  (* source equal to target *)
  /\ handleDragEnd (mkDragEndEvent "topic:A" (Some "topic:A")) gestureState
     = gestureState
  (* a question dropped onto a topic *)
  /\ handleDragEnd (mkDragEndEvent "question:q1" (Some "topic:B")) gestureState
     = gestureState
  (* a question id that resolves to nothing *)
  /\ handleDragEnd (mkDragEndEvent "question:q1" (Some "question:q9"))
                   gestureState
     = gestureState.
Proof.
  split; [|split; [|split]].
  - apply (handleDragEnd_inert "chapter:A" "topic:B" gestureState).
    left. reflexivity.
  - apply (handleDragEnd_inert "topic:A" "topic:A" gestureState).
    right; right; left. reflexivity.
  - apply (handleDragEnd_inert "question:q1" "topic:B" gestureState).
    right; right; right; left.
    exists (PQuestion "q1"), (PTopic "B").
    split; [reflexivity | split; [reflexivity | discriminate]].
  - apply (handleDragEnd_inert "question:q1" "question:q9" gestureState).
    right; right; right; right.
    exists "q1", "q9".
    split; [reflexivity | split; [reflexivity | right; reflexivity]].
Defined.

Lemma nonempty_true (x : string) : x <> EmptyString -> nonempty x = true.
Proof. destruct x; [congruence | reflexivity]. Qed.

Lemma parseId_question (x : string) :
  parseId ("question:" ++ x)%string = Some (PQuestion x).
Proof. reflexivity. Qed.

Lemma question_id_eqb (x y : string) :
  String.eqb ("question:" ++ x)%string ("question:" ++ y)%string = String.eqb x y.
Proof. reflexivity. Qed.





(* ===================================================================== *)
(** ** The topic order has no duplicates: which actions keep it so *)
(* ===================================================================== *)

Lemma rename_other (o n x : string) : x <> o -> rename o n x = x.
Proof. intros H. unfold rename. apply String.eqb_neq in H. now rewrite H. Qed.

Lemma rename_same (o n : string) : rename o n o = n.
Proof. unfold rename. now rewrite String.eqb_refl. Qed.

Lemma rename_collides_dup (o n : string) (l : list string) :
  collides o n l -> ~ NoDup (map (rename o n) l).
Proof.
  intros (Ho & Hn & Hne).
  induction l as [|x r IH]; simpl; [contradiction|].
  intros H. inversion H as [|? ? Hx Hr]; subst.
  destruct (string_dec x o) as [->|Hxo].
  - destruct Hn as [Hn | Hn]; [congruence|].
    apply Hx. rewrite rename_same.
    apply in_map_iff. exists n. split; auto. apply rename_other. congruence.
  - destruct Ho as [Ho | Ho]; [congruence|].
    destruct (string_dec x n) as [->|Hxn].
    + apply Hx. rewrite rename_other by exact Hxo.
      apply in_map_iff. exists o. split; auto. apply rename_same.
    + destruct Hn as [Hn | Hn]; [congruence|]. exact (IH Ho Hn Hr).
Qed.

Lemma rename_no_collision (o n : string) (l : list string) :
  NoDup l -> ~ collides o n l -> NoDup (map (rename o n) l).
Proof.
  intros Hl Hc.
  destruct (in_dec string_dec o l) as [Ho | Ho].
  - destruct (string_dec o n) as [<- | Hne].
    + erewrite map_ext_in; [rewrite map_id; exact Hl|].
      intros x _. unfold rename. destruct (String.eqb x o) eqn:E; auto.
      now apply String.eqb_eq in E.
    + assert (Hn : ~ In n l) by (unfold collides in Hc; tauto).
      clear Hc Ho.
      induction Hl as [|x r Hx Hr IH]; simpl; constructor.
      * intros H. apply in_map_iff in H as [z [Ez Hz]].
        destruct (string_dec x o) as [->|Hxo];
          destruct (string_dec z o) as [->|Hzo].
        -- contradiction.
        -- rewrite rename_same, rename_other in Ez by exact Hzo.
           subst z. apply Hn. right. exact Hz.
        -- rewrite rename_same, rename_other in Ez by exact Hxo.
           subst x. apply Hn. left. reflexivity.
        -- rewrite !rename_other in Ez by assumption. congruence.
      * apply IH. intros H. apply Hn. right. exact H.
  - erewrite map_ext_in; [rewrite map_id; exact Hl|].
    intros x Hx. apply rename_other. congruence.
Qed.


Lemma firstPass_from_thrown (all l : list string) (e : Thrown) :
  firstPass_from all l (inr e) = inr e.
Proof. induction l as [|t r IH]; [reflexivity | exact IH]. Qed.

Lemma firstPass_from_cons (all r : list string) (t : string)
                          (g : obj (list string)) :
  firstPass_from all (t :: r) (inl g)
  = firstPass_from all r (firstPass_step all g t).
Proof. reflexivity. Qed.

(** What holds of the groups at the start and is kept by every step that
    does not throw holds of the groups of a first pass that does not throw. *)
Lemma firstPass_from_inv (P : obj (list string) -> Prop) (all l : list string) :
  (forall g t g', P g -> In t l -> firstPass_step all g t = inl g' -> P g') ->
  forall g0 g, P g0 -> firstPass_from all l (inl g0) = inl g -> P g.
Proof.
  induction l as [|t r IH]; intros Hstep g0 g H0 E.
  - injection E as <-. exact H0.
  - rewrite firstPass_from_cons in E.
    destruct (firstPass_step all g0 t) as [g1|e] eqn:E1.
    + apply (IH (fun g t' g' Hg Ht => Hstep g t' g' Hg (or_intror Ht)) g1 g);
        [|exact E].
      apply (Hstep g0 t g1 H0 (or_introl eq_refl) E1).
    + rewrite firstPass_from_thrown in E. discriminate.
Qed.

Lemma push_group_wf (k x : string) (g g' : obj (list string)) :
  wf g -> push_group k x g = Some g' -> wf g'.
Proof.
  unfold push_group. intros H.
  destruct (read k g); intros [= <-]; now apply wf_set.
Qed.

Lemma firstPass_wf (all : list string) (g : obj (list string)) :
  firstPass all = inl g -> wf g.
Proof.
  apply (firstPass_from_inv (@wf _) all all); [|apply wf_empty].
  intros g0 t g' H _. unfold firstPass_step.
  destruct (partMatch t).
  - destruct (push_group _ t g0) eqn:E; intros [= <-].
    apply (push_group_wf _ _ _ _ H E).
  - destruct (existsb _ all).
    + destruct (push_group _ t g0) eqn:E; intros [= <-].
      apply (push_group_wf _ _ _ _ H E).
    + intros [= <-]. now apply wf_assign.
Qed.

Lemma secondPass_order (groups : obj (list string)) (ks : list string)
                       (acc : Transformed) :
  transformedTopicOrder (fold_left (secondPass_step groups) ks acc)
  = transformedTopicOrder acc ++ ks.
Proof.
  revert acc. induction ks as [|k r IH]; intros acc; simpl.
  - now rewrite app_nil_r.
  - rewrite IH. unfold secondPass_step.
    destruct (1 <? length _)%nat; simpl; now rewrite <- app_assoc.
Qed.

(** A transform that does not throw comes from a first pass that does not. *)
Lemma transform_inl (all : list string) (t : Transformed) :
  transform all = inl t ->
  exists g, firstPass all = inl g /\ t = secondPass g.
Proof.
  unfold transform. destruct (firstPass all) as [g|e]; [|discriminate].
  intros [= <-]. now exists g.
Qed.

(** The topic order built by the ingestion transform is the key list of the
    groups, and so free of duplicates. *)
Lemma transform_topicOrder (all : list string) (t : Transformed) :
  transform all = inl t ->
  (exists g, firstPass all = inl g /\ transformedTopicOrder t = keys g)
  /\ NoDup (transformedTopicOrder t).
Proof.
  intros H. destruct (transform_inl all t H) as [g [Eg ->]].
  assert (E : transformedTopicOrder (secondPass g) = keys g).
  { unfold secondPass. now rewrite secondPass_order. }
  split; [now exists g|]. rewrite E. apply keys_NoDup, (firstPass_wf all g Eg).
Qed.

Lemma fetchSheetData_topicOrder_NoDup (r : Response) (s : QuestionState) :
  NoDup (topicOrder (config s)) ->
  NoDup (topicOrder (config (fetchSheetData r s))).
Proof.
  intros H. unfold fetchSheetData, fetchSheetData_settle, ingest.
  destruct r as [d | e]; [|exact H].
  destruct (sheet_config d) as [cfg|]; [|exact H].
  destruct (data_questions d); [|exact H].
  destruct (raw_topicOrder cfg) as [all|]; [|exact H].
  destruct (transform all) as [t|e] eqn:E; [|exact H].
  simpl. apply (transform_topicOrder all t E).
Qed.

(** C2, as stated, fails: from a state whose topicOrder ["A", "B"] has no
    duplicates, [editTopic "A" "B"] gives ["B", "B"], and
    [reorderTopics ["A", "A"]] installs the list it is given. *)
Lemma topicOrder_duplicates_reachable :
  let s := stateOf ["A"; "B"] empty [] [] in
  NoDup (topicOrder (config s))
  /\ topicOrder (config (run (EditTopic "A" "B") s)) = ["B"; "B"]
  /\ ~ NoDup (topicOrder (config (run (EditTopic "A" "B") s)))
  /\ ~ NoDup (topicOrder (config (run (ReorderTopics ["A"; "A"]) s))).
Proof.
  assert (D : forall x : string, ~ NoDup [x; x]).
  { intros x H. inversion H as [|? ? Hx _]. apply Hx. left. reflexivity. }
  split; [|split; [reflexivity | split; apply D]].
  repeat constructor; simpl; intuition discriminate.
Qed.

(** C2, amended.  From a state whose topicOrder has no duplicates, every
    action of the store (the fetch included) leaves a topicOrder without
    duplicates, except [editTopic old new] when [old] is in topicOrder and
    [new] is another name already in it, and [reorderTopics newOrder] when
    [newOrder] itself has duplicates; in those two cases the result does
    have duplicates. *)
Theorem topicOrder_NoDup_step (a : Action) (s : QuestionState) :
  NoDup (topicOrder (config s)) ->
  (NoDup (topicOrder (config (run a s))) <-> keepsTopicsDistinct a s).
Proof.
  intros H.
  destruct a; simpl;
    try (split; [exact (fun _ => I) | intros _; exact H]);
    try (split; [exact (fun _ => I) | intros _];
         cbv delta [addSubTopic editSubTopic deleteSubTopic moveSubTopicToTopic];
         cbv beta zeta;
         repeat (destruct (listAt _ _); [|exact H]);
         try (destruct (negb _)); exact H).
  - (* addTopic *)
    split; [exact (fun _ => I) | intros _].
    unfold addTopic.
    destruct (includes topicName (topicOrder (config s))) eqn:E; simpl; auto.
    apply NoDup_snoc; auto.
    intros Hin. apply includes_In in Hin. congruence.
  - (* editTopic *)
    split.
    + intros Hn Hc. exact (rename_collides_dup _ _ _ Hc Hn).
    + now apply rename_no_collision.
  - (* deleteTopic *)
    split; [exact (fun _ => I) | intros _]. now apply NoDup_filter.
  - (* reorderTopics *)
    tauto.
  - (* fetchSheetData *)
    split; [exact (fun _ => I) | intros _].
    now apply fetchSheetData_topicOrder_NoDup.
Qed.

Lemma topicOrder_NoDup_step_witness :
  let s := stateOf ["A"; "B"] empty [] [] in
  NoDup (topicOrder (config s))
  /\ NoDup (topicOrder (config (run (EditTopic "A" "C") s))).
Proof.
  intros s.
  assert (H : NoDup (topicOrder (config s))).
  { repeat constructor; simpl; intuition discriminate. }
  split; [exact H|].
  apply (proj2 (topicOrder_NoDup_step (EditTopic "A" "C") s H)).
  simpl. unfold collides. simpl. intuition discriminate.
Defined.

(* ===================================================================== *)
(** ** The drag handler only permutes the topic order *)
(* ===================================================================== *)

Lemma splice_remove_perm {A : Type} (start deleteCount : Z) (l : list A) :
  Permutation (fst (splice start deleteCount [] l)
               ++ snd (splice start deleteCount [] l)) l.
Proof.
  unfold splice. simpl.
  set (i := Z.to_nat _). set (d := Z.to_nat _).
  rewrite Nat.add_comm, <- skipn_skipn.
  rewrite Permutation_app_swap_app, firstn_skipn, firstn_skipn.
  reflexivity.
Qed.

Lemma splice_insert_perm {A : Type} (start : Z) (items l : list A) :
  Permutation (snd (splice start 0 items l)) (items ++ l).
Proof.
  unfold splice. simpl.
  set (len := Z.of_nat (length l)).
  set (actualStart := if (start <? 0)%Z then _ else _).
  assert (Hle : (actualStart <= len)%Z).
  { subst actualStart. destruct (start <? 0)%Z eqn:E; [|lia].
    apply Z.ltb_lt in E. lia. }
  replace (Z.to_nat (Z.min (Z.max 0 0) (len - actualStart))) with 0%nat by lia.
  rewrite Nat.add_0_r, Permutation_app_swap_app, firstn_skipn.
  reflexivity.
Qed.

Lemma splice_one_removed {A : Type} (start : Z) (l : list A) :
  firstn 1 (fst (splice start 1 [] l)) = fst (splice start 1 [] l).
Proof.
  unfold splice. cbn [fst]. apply firstn_all2.
  rewrite length_firstn. lia.
Qed.

(** The splice idiom loses and duplicates nothing, whatever the indices. *)
Lemma spliceMove_perm {A : Type} (oldIndex newIndex : Z) (l : list A) :
  Permutation (spliceMove oldIndex newIndex l) l.
Proof.
  unfold spliceMove.
  pose proof (splice_remove_perm oldIndex 1 l) as Hr.
  pose proof (splice_one_removed oldIndex l) as H1.
  destruct (splice oldIndex 1 [] l) as [removed copy]. cbn [fst snd] in Hr, H1.
  rewrite splice_insert_perm, H1. exact Hr.
Qed.

Lemma spliceReorder_perm (a b : string) (order newOrder : list string) :
  spliceReorder a b order = Some newOrder -> Permutation newOrder order.
Proof.
  unfold spliceReorder. destruct (_ && _); [|discriminate].
  intros [= <-]. apply spliceMove_perm.
Qed.

Lemma moveSubTopicToTopic_orders (sname from to : string) (s : QuestionState) :
  topicOrder (config (moveSubTopicToTopic sname from to s))
  = topicOrder (config s)
  /\ questionOrder (config (moveSubTopicToTopic sname from to s))
     = questionOrder (config s).
Proof.
  unfold moveSubTopicToTopic.
  destruct (listAt from _); [|split; reflexivity].
  destruct (listAt to _); split; reflexivity.
Qed.

(** A gesture handled on an up-to-date render leaves topicOrder a
    permutation of what it was; in particular it introduces no duplicate. *)
Lemma handleDragEnd_topicOrder_perm (event : DragEndEvent) (s : QuestionState) :
  Permutation (topicOrder (config (handleDragEnd event s)))
              (topicOrder (config s)).
Proof.
  unfold handleDragEnd, handleDragEnd_from.
  destruct (over event) as [o|]; [|reflexivity].
  destruct (String.eqb (active event) o); [reflexivity|].
  destruct (parseId (active event)) as [pa|]; [|reflexivity].
  destruct (parseId o) as [po|]; [|reflexivity].
  destruct pa as [an | at_ [asub|] | aid], po as [on | ot [osub|] | oid];
    cbn [handleTopics handleSubTopics handleQuestions]; try reflexivity.
  - destruct (nonempty an && nonempty on); [|reflexivity].
    destruct (spliceReorder an on _) eqn:E; [|reflexivity].
    simpl. now apply spliceReorder_perm in E.
  - destruct (_ && _); [|reflexivity].
    destruct (String.eqb at_ ot).
    + destruct (listAt _ _); [|reflexivity].
      now destruct (spliceReorder asub osub _).
    + now rewrite (proj1 (moveSubTopicToTopic_orders asub at_ ot s)).
  - destruct (nonempty aid && nonempty oid); [|reflexivity].
    destruct (find _ _); [|reflexivity].
    destruct (find _ _); [|reflexivity].
    destruct (_ && _); now destruct (spliceReorder aid oid _).
Qed.

(* ===================================================================== *)
(** ** The splice idiom: where the moved element lands *)
(* ===================================================================== *)

Lemma splice_take_one {A : Type} (i : nat) (l : list A) :
  (i < length l)%nat ->
  splice (Z.of_nat i) 1 [] l
  = (firstn 1 (skipn i l), firstn i l ++ skipn (S i) l).
Proof.
  intros H. unfold splice.
  assert (E : (Z.of_nat i <? 0)%Z = false) by (apply Z.ltb_ge; lia).
  rewrite E.
  replace (Z.to_nat (Z.min (Z.of_nat i) (Z.of_nat (length l)))) with i by lia.
  replace (Z.to_nat (Z.min (Z.max 1 0)
             (Z.of_nat (length l) - Z.min (Z.of_nat i) (Z.of_nat (length l)))))
    with 1%nat by lia.
  now rewrite Nat.add_1_r.
Qed.

Lemma splice_put {A : Type} (j : nat) (items l : list A) :
  (j <= length l)%nat ->
  snd (splice (Z.of_nat j) 0 items l) = firstn j l ++ items ++ skipn j l.
Proof.
  intros H. unfold splice. cbn [snd].
  assert (E : (Z.of_nat j <? 0)%Z = false) by (apply Z.ltb_ge; lia).
  rewrite E.
  replace (Z.to_nat (Z.min (Z.of_nat j) (Z.of_nat (length l)))) with j by lia.
  replace (Z.to_nat (Z.min (Z.max 0 0)
             (Z.of_nat (length l) - Z.min (Z.of_nat j) (Z.of_nat (length l)))))
    with 0%nat by lia.
  now rewrite Nat.add_0_r.
Qed.

Lemma skipn_head {A : Type} (i : nat) (l : list A) (x : A) :
  nth_error l i = Some x -> firstn 1 (skipn i l) = [x].
Proof.
  revert l. induction i as [|i IH]; intros [|y r]; simpl; try discriminate.
  - now intros [= ->].
  - apply IH.
Qed.

(** For two indices of the list, the element at [oldIndex] ends at
    [newIndex], the length is kept, and the other elements keep their
    relative order (the list without the moved element is the same before
    and after). *)
Lemma spliceMove_lands {A : Type} (i j : nat) (l : list A) (x : A) :
  nth_error l i = Some x -> (j < length l)%nat ->
  spliceMove (Z.of_nat i) (Z.of_nat j) l
  = firstn j (firstn i l ++ skipn (S i) l) ++ x
    :: skipn j (firstn i l ++ skipn (S i) l).
Proof.
  intros Hx Hj.
  assert (Hi : (i < length l)%nat) by (apply nth_error_Some; congruence).
  unfold spliceMove. rewrite (splice_take_one i l Hi).
  rewrite (skipn_head i l x Hx). cbn [firstn].
  rewrite splice_put; [reflexivity|].
  rewrite length_app, length_firstn, length_skipn. lia.
Qed.

Lemma indexOf_nth (x : string) (l : list string) :
  In x l ->
  (0 <= indexOf x l)%Z
  /\ nth_error l (Z.to_nat (indexOf x l)) = Some x.
Proof.
  induction l as [|y r IH]; simpl; [contradiction|].
  intros H. destruct (String.eqb y x) eqn:E.
  - apply String.eqb_eq in E. subst. split; [lia | reflexivity].
  - apply String.eqb_neq in E. destruct H as [H | H]; [congruence|].
    destruct (IH H) as [H0 Hn].
    destruct (indexOf x r <? 0)%Z eqn:E'; [apply Z.ltb_lt in E'; lia|].
    split; [lia|].
    replace (Z.to_nat (indexOf x r + 1)) with (S (Z.to_nat (indexOf x r)))
      by lia.
    exact Hn.
Qed.

Lemma spliceMove_nth {A : Type} (i j : nat) (l : list A) (x : A) :
  nth_error l i = Some x -> (j < length l)%nat ->
  nth_error (spliceMove (Z.of_nat i) (Z.of_nat j) l) j = Some x.
Proof.
  intros Hx Hj.
  assert (Hi : (i < length l)%nat) by (apply nth_error_Some; congruence).
  rewrite (spliceMove_lands i j l x Hx Hj).
  assert (Hf : length (firstn j (firstn i l ++ skipn (S i) l)) = j).
  { rewrite length_firstn, length_app, length_firstn, length_skipn. lia. }
  rewrite nth_error_app2 by lia. rewrite Hf, Nat.sub_diag. reflexivity.
Qed.

(** X1.  [spliceMove] between two indices of a list puts the element taken
    at [oldIndex] at position [newIndex] of the result, keeps the length,
    and leaves the remaining elements in their order: removing position
    [newIndex] from the result gives the list without position [oldIndex]. *)
Theorem spliceMove_target_index {A : Type} (i j : nat) (l : list A) (x : A) :
  nth_error l i = Some x -> (j < length l)%nat ->
  let l' := spliceMove (Z.of_nat i) (Z.of_nat j) l in
  nth_error l' j = Some x
  /\ length l' = length l
  /\ firstn j l' ++ skipn (S j) l' = firstn i l ++ skipn (S i) l.
Proof.
  intros Hx Hj l'.
  assert (Hi : (i < length l)%nat) by (apply nth_error_Some; congruence).
  subst l'. rewrite (spliceMove_lands i j l x Hx Hj).
  set (copy := firstn i l ++ skipn (S i) l).
  assert (Hc : length copy = (length l - 1)%nat).
  { unfold copy. rewrite length_app, length_firstn, length_skipn. lia. }
  assert (Hf : length (firstn j copy) = j) by (rewrite length_firstn; lia).
  split; [|split].
  - rewrite nth_error_app2 by lia. rewrite Hf, Nat.sub_diag. reflexivity.
  - rewrite length_app. simpl. rewrite Hf, length_skipn. lia.
  - rewrite firstn_app, Hf, Nat.sub_diag, firstn_O, app_nil_r.
    rewrite firstn_all2 by lia.
    replace (S j) with (length (firstn j copy ++ [x]))
      by (rewrite length_app, Hf; simpl; lia).
    change (firstn j copy ++ x :: skipn j copy)
      with (firstn j copy ++ [x] ++ skipn j copy).
    rewrite app_assoc, skipn_app, skipn_all, Nat.sub_diag. simpl.
    apply firstn_skipn.
Qed.

Lemma spliceMove_target_index_witness :
  nth_error (spliceMove 3 1 ["a"; "b"; "c"; "d"; "e"]) 1 = Some "d"
  /\ firstn 1 (spliceMove 3 1 ["a"; "b"; "c"; "d"; "e"])
     ++ skipn 2 (spliceMove 3 1 ["a"; "b"; "c"; "d"; "e"])
     = ["a"; "b"; "c"; "e"].
Proof.
  assert (H1 : nth_error ["a"; "b"; "c"; "d"; "e"] 3 = Some "d") by reflexivity.
  assert (H2 : (1 < length ["a"; "b"; "c"; "d"; "e"])%nat) by (simpl; lia).
  destruct (spliceMove_target_index 3 1 ["a"; "b"; "c"; "d"; "e"] "d" H1 H2)
    as [P [_ Q]].
  split; [exact P | exact Q].
Defined.

(* ===================================================================== *)
(** ** Drag gestures on topics *)
(* ===================================================================== *)

Lemma parseId_topic (a : string) :
  parseId ("topic:" ++ a)%string = Some (PTopic a).
Proof. reflexivity. Qed.

Lemma topic_id_eqb (a b : string) :
  String.eqb ("topic:" ++ a)%string ("topic:" ++ b)%string = String.eqb a b.
Proof. reflexivity. Qed.

Lemma indexOf_found (x : string) (l : list string) :
  In x l -> (indexOf x l =? -1)%Z = false.
Proof.
  intros H. apply Z.eqb_neq. now apply indexOf_In.
Qed.

Lemma indexOf_missing (x : string) (l : list string) :
  ~ In x l -> indexOf x l = (-1)%Z.
Proof.
  intros H. destruct (Z.eq_dec (indexOf x l) (-1)) as [E | E]; auto.
  apply indexOf_In in E. contradiction.
Qed.

Lemma handleDragEnd_topics (a b : string) (s : QuestionState) :
  a <> EmptyString -> b <> EmptyString -> a <> b ->
  handleDragEnd (topicEvent a b) s
  = match spliceReorder a b (topicOrder (config s)) with
    | Some newTopics => reorderTopics newTopics s
    | None => s
    end.
Proof.
  intros Ha Hb Hab.
  unfold handleDragEnd, handleDragEnd_from, topicEvent. cbn [over active].
  rewrite topic_id_eqb, (proj2 (String.eqb_neq a b) Hab), !parseId_topic.
  cbn [handleTopics handleSubTopics handleQuestions].
  rewrite (nonempty_true a Ha), (nonempty_true b Hb). cbn [andb].
  now destruct (spliceReorder a b (topicOrder (config s))).
Qed.

(** C7.  Dragging topic [a] onto another topic [b], both in topicOrder,
    commits the list obtained by taking [a] out of its index and putting it
    back at the index [b] had, and changes nothing else: a list move, not an
    exchange of the two names.  So ["A","B","C"] with "A" dropped onto "C"
    becomes ["B","C","A"] and not ["C","B","A"]; ["A","B","C","D"] with "A"
    dropped onto "C" becomes ["B","C","A","D"], "A" at the index of "C" and
    not at the end; and ["A","B","C"] with "C" dropped onto "A" becomes
    ["C","A","B"]. *)
Theorem handleDragEnd_topic_splice :
  (forall (a b : string) (s : QuestionState),
     a <> EmptyString -> b <> EmptyString -> a <> b ->
     In a (topicOrder (config s)) -> In b (topicOrder (config s)) ->
     let order := topicOrder (config s) in
     let i := Z.to_nat (indexOf a order) in
     let j := Z.to_nat (indexOf b order) in
     let rest := firstn i order ++ skipn (S i) order in
     handleDragEnd (topicEvent a b) s
     = mkQuestionState
         (mkSheetConfig (firstn j rest ++ a :: skipn j rest)
                        (subTopicOrder (config s)) (questionOrder (config s)))
         (questions s) (loading s) (error s))
  /\ (forall (subs : obj (list string)) (order : list string)
             (qs : list Question) (l : bool) (e : option string),
        let st := fun topics =>
          mkQuestionState (mkSheetConfig topics subs order) qs l e in
        handleDragEnd (topicEvent "A" "C") (st ["A"; "B"; "C"])
        = st ["B"; "C"; "A"]
        /\ handleDragEnd (topicEvent "A" "C") (st ["A"; "B"; "C"])
           <> st ["C"; "B"; "A"]
        /\ handleDragEnd (topicEvent "A" "C") (st ["A"; "B"; "C"; "D"])
           = st ["B"; "C"; "A"; "D"]
        /\ handleDragEnd (topicEvent "C" "A") (st ["A"; "B"; "C"])
           = st ["C"; "A"; "B"]).
Proof.
  split.
  - intros a b s Ha Hb Hab Ia Ib order i j rest.
    subst rest i j order.
    rewrite (handleDragEnd_topics a b s Ha Hb Hab).
    unfold spliceReorder.
    rewrite (indexOf_found a _ Ia), (indexOf_found b _ Ib). cbn [negb andb].
    destruct (indexOf_nth a _ Ia) as [A0 An].
    destruct (indexOf_nth b _ Ib) as [B0 Bn].
    assert (Bl : (Z.to_nat (indexOf b (topicOrder (config s)))
                  < length (topicOrder (config s)))%nat).
    { apply nth_error_Some. congruence. }
    pose proof (spliceMove_lands _ _ _ a An Bl) as P.
    rewrite !Z2Nat.id in P by assumption.
    unfold reorderTopics, set_config. rewrite P. reflexivity.
  - intros subs order qs l e st.
    split; [reflexivity|]. split; [discriminate|]. split; reflexivity.
Qed.

Lemma handleDragEnd_topic_splice_witness :
  handleDragEnd (topicEvent "B" "D") (stateOf ["A"; "B"; "C"; "D"; "E"] empty [] [])
  = stateOf ["A"; "C"; "D"; "B"; "E"] empty [] [].
Proof.
  assert (Hb : "B" <> EmptyString) by discriminate.
  assert (Hd : "D" <> EmptyString) by discriminate.
  assert (Hbd : "B" <> "D") by discriminate.
  assert (Ib : In "B" (topicOrder (config
                 (stateOf ["A"; "B"; "C"; "D"; "E"] empty [] []))))
    by (simpl; tauto).
  assert (Id : In "D" (topicOrder (config
                 (stateOf ["A"; "B"; "C"; "D"; "E"] empty [] []))))
    by (simpl; tauto).
  exact (proj1 handleDragEnd_topic_splice "B" "D"
           (stateOf ["A"; "B"; "C"; "D"; "E"] empty [] []) Hb Hd Hbd Ib Id).
Defined.

(** X2.  Dragging topic [a] onto another topic [b] (both names non-empty):
    when both are in topicOrder, [a] ends at the index [b] had, topicOrder
    is a permutation of what it was, and nothing else of the state changes;
    when one of them is not in topicOrder, the state is unchanged. *)
Theorem handleDragEnd_topic_move (a b : string) (s : QuestionState) :
  a <> EmptyString -> b <> EmptyString -> a <> b ->
  let s' := handleDragEnd (topicEvent a b) s in
  (In a (topicOrder (config s)) -> In b (topicOrder (config s)) ->
   nth_error (topicOrder (config s'))
             (Z.to_nat (indexOf b (topicOrder (config s)))) = Some a
   /\ Permutation (topicOrder (config s')) (topicOrder (config s))
   /\ subTopicOrder (config s') = subTopicOrder (config s)
   /\ questionOrder (config s') = questionOrder (config s)
   /\ questions s' = questions s
   /\ loading s' = loading s /\ error s' = error s)
  /\ (~ In a (topicOrder (config s)) \/ ~ In b (topicOrder (config s)) ->
      s' = s).
Proof.
  intros Ha Hb Hab s'. subst s'. rewrite (handleDragEnd_topics a b s Ha Hb Hab).
  unfold spliceReorder. split.
  - intros Ia Ib.
    rewrite (indexOf_found a _ Ia), (indexOf_found b _ Ib). cbn [negb andb].
    destruct (indexOf_nth a _ Ia) as [A0 An].
    destruct (indexOf_nth b _ Ib) as [B0 Bn].
    assert (Bl : (Z.to_nat (indexOf b (topicOrder (config s)))
                  < length (topicOrder (config s)))%nat).
    { apply nth_error_Some. congruence. }
    cbn [reorderTopics set_config config topicOrder subTopicOrder questionOrder
         questions loading error].
    split; [|split; [apply spliceMove_perm | repeat split]].
    pose proof (spliceMove_nth _ _ _ _ An Bl) as P.
    rewrite !Z2Nat.id in P by assumption. exact P.
  - intros [H | H].
    + rewrite (indexOf_missing a _ H). reflexivity.
    + rewrite (indexOf_missing b _ H). cbn [Z.eqb negb andb].
      now rewrite andb_false_r.
Qed.

Lemma handleDragEnd_topic_move_witness :
  let s := stateOf ["A"; "B"; "C"; "D"] empty [] [] in
  nth_error (topicOrder (config (handleDragEnd (topicEvent "D" "B") s))) 1
  = Some "D"
  /\ handleDragEnd (topicEvent "D" "Z") s = s.
Proof.
  intros s.
  assert (Ha : "D" <> EmptyString) by discriminate.
  assert (Hb : "B" <> EmptyString) by discriminate.
  assert (Hz : "Z" <> EmptyString) by discriminate.
  assert (Hab : "D" <> "B") by discriminate.
  assert (Haz : "D" <> "Z") by discriminate.
  split.
  - destruct (handleDragEnd_topic_move "D" "B" s Ha Hb Hab) as [P _].
    apply P; simpl; tauto.
  - destruct (handleDragEnd_topic_move "D" "Z" s Ha Hz Haz) as [_ Q].
    apply Q. right. simpl. intuition discriminate.
Defined.

(* ===================================================================== *)
(** ** Drag identifiers: encoding and parsing *)
(* ===================================================================== *)

Lemma split_noColon (t : string) : noColon t = true -> split ":" t = [t].
Proof.
  unfold noColon. induction t as [|c t IH]; simpl; [reflexivity|].
  intros H. apply andb_true_iff in H as [Hc Ht].
  apply negb_true_iff in Hc. rewrite Hc, (IH Ht). reflexivity.
Qed.

Lemma split_at_colon_cons (t r : string) :
  noColon t = true ->
  split ":" (t ++ String ":" r)%string = t :: split ":" r.
Proof.
  unfold noColon. induction t as [|c t IH]; simpl; [reflexivity|].
  intros H. apply andb_true_iff in H as [Hc Ht].
  apply negb_true_iff in Hc. rewrite Hc, (IH Ht). reflexivity.
Qed.

Lemma split_at_colon (t r : string) :
  noColon t = true ->
  split ":" (t ++ ":" ++ r)%string = t :: split ":" r.
Proof. exact (split_at_colon_cons t r). Qed.

Lemma str_app_assoc (a b c : string) :
  ((a ++ b) ++ c = a ++ (b ++ c))%string.
Proof. induction a as [|x a IH]; simpl; [reflexivity | now rewrite IH]. Qed.

Lemma parseId_subtopic_parts (rest : string) :
  parseId ("subtopic:" ++ rest)%string
  = Some (PSubtopic (hd EmptyString (split ":" rest))
                    (nth_error (split ":" rest) 1)).
Proof. reflexivity. Qed.

Lemma parseId_subtopic (t st : string) :
  noColon t = true -> noColon st = true ->
  parseId ("subtopic:" ++ t ++ ":" ++ st)%string = Some (PSubtopic t (Some st)).
Proof.
  intros Ht Hst.
  rewrite parseId_subtopic_parts, (split_at_colon t st Ht), (split_noColon st Hst).
  reflexivity.
Qed.

(** X3.  The identifiers the components build parse back to what they were
    built from: ["topic:" ++ name] and ["question:" ++ id] always, and
    ["subtopic:" ++ topic ++ ":" ++ subtopic] when neither name has a colon.
    The three kinds never overlap. *)
Theorem parseId_roundtrip :
  (forall name, parseId ("topic:" ++ name)%string = Some (PTopic name))
  /\ (forall id, parseId ("question:" ++ id)%string = Some (PQuestion id))
  /\ (forall t st, noColon t = true -> noColon st = true ->
        parseId ("subtopic:" ++ t ++ ":" ++ st)%string
        = Some (PSubtopic t (Some st))).
Proof.
  split; [|split].
  - intros name. reflexivity.
  - intros id. reflexivity.
  - exact parseId_subtopic.
Qed.

Lemma parseId_roundtrip_witness :
  parseId "subtopic:Dynamic Programming:DP Part-II"
  = Some (PSubtopic "Dynamic Programming" (Some "DP Part-II")).
Proof.
  destruct parseId_roundtrip as [_ [_ H]].
  apply (H "Dynamic Programming" "DP Part-II"); reflexivity.
Defined.

(** X4.  A colon inside a name is taken for the separator.  The identifier
    of sub-topic [st] of a topic named [t1 ++ ":" ++ t2] parses as sub-topic
    [t2] of topic [t1], and a sub-topic name [s1 ++ ":" ++ s2] is cut down
    to [s1]. *)
Theorem parseId_colon_in_name (t1 t2 s1 s2 : string) :
  noColon t1 = true -> noColon t2 = true -> noColon s1 = true ->
  (forall st,
     parseId ("subtopic:" ++ (t1 ++ ":" ++ t2) ++ ":" ++ st)%string
     = Some (PSubtopic t1 (Some t2)))
  /\ parseId ("subtopic:" ++ t1 ++ ":" ++ (s1 ++ ":" ++ s2))%string
     = Some (PSubtopic t1 (Some s1)).
Proof.
  intros H1 H2 H3. split.
  - intros st. rewrite parseId_subtopic_parts.
    rewrite (str_app_assoc t1 (":" ++ t2) (":" ++ st)).
    change ((":" ++ t2) ++ ":" ++ st)%string
      with (":" ++ (t2 ++ ":" ++ st))%string.
    rewrite (split_at_colon t1 _ H1), (split_at_colon t2 _ H2). reflexivity.
  - rewrite parseId_subtopic_parts.
    rewrite (split_at_colon t1 _ H1), (split_at_colon s1 _ H3). reflexivity.
Qed.

Lemma parseId_colon_in_name_witness :
  parseId "subtopic:C++: basics:Pointers"
  = Some (PSubtopic "C++" (Some " basics")).
Proof.
  assert (H1 : noColon "C++" = true) by reflexivity.
  assert (H2 : noColon " basics" = true) by reflexivity.
  assert (H3 : noColon "x" = true) by reflexivity.
  destruct (parseId_colon_in_name "C++" " basics" "x" "y" H1 H2 H3) as [H _].
  exact (H "Pointers").
Defined.

(* ===================================================================== *)
(** ** Drag gestures on sub-topics and questions *)
(* ===================================================================== *)

Lemma spliceReorder_found (a b : string) (l : list string) :
  In a l -> In b l ->
  exists l', spliceReorder a b l = Some l'
             /\ nth_error l' (Z.to_nat (indexOf b l)) = Some a
             /\ Permutation l' l.
Proof.
  intros Ia Ib. unfold spliceReorder.
  rewrite (indexOf_found a l Ia), (indexOf_found b l Ib). cbn [negb andb].
  eexists. split; [reflexivity|]. split; [|apply spliceMove_perm].
  destruct (indexOf_nth a l Ia) as [A0 An].
  destruct (indexOf_nth b l Ib) as [B0 Bn].
  assert (Bl : (Z.to_nat (indexOf b l) < length l)%nat).
  { apply nth_error_Some. congruence. }
  pose proof (spliceMove_lands _ _ _ _ An Bl) as E.
  rewrite !Z2Nat.id in E by assumption. rewrite E.
  set (copy := firstn _ l ++ skipn _ l).
  assert (Hc : length copy = (length l - 1)%nat).
  { unfold copy. rewrite length_app, length_firstn, length_skipn.
    assert (Al : (Z.to_nat (indexOf a l) < length l)%nat)
      by (apply nth_error_Some; congruence).
    lia. }
  rewrite nth_error_app2 by (rewrite length_firstn; lia).
  rewrite length_firstn.
  replace (_ - _)%nat with 0%nat by lia. reflexivity.
Qed.

Lemma spliceReorder_missing (a b : string) (l : list string) :
  ~ In a l \/ ~ In b l -> spliceReorder a b l = None.
Proof.
  unfold spliceReorder. intros [H | H].
  - rewrite (indexOf_missing a l H). reflexivity.
  - rewrite (indexOf_missing b l H).
    change (negb (-1 =? -1)%Z) with false. now rewrite andb_false_r.
Qed.








Lemma handleDragEnd_questions (a b : string) (s : QuestionState) :
  a <> EmptyString -> b <> EmptyString -> a <> b ->
  handleDragEnd (questionEvent a b) s
  = handleQuestions s (PQuestion a) (PQuestion b) s.
Proof.
  intros Ha Hb Hab.
  unfold handleDragEnd, handleDragEnd_from, questionEvent. cbn [over active].
  rewrite question_id_eqb, (proj2 (String.eqb_neq a b) Hab), !parseId_question.
  reflexivity.
Qed.

(** X7.  A question dropped onto another question of the same container
    (same topic, same sub-topic) changes questionOrder only: it is permuted,
    with the dragged id at the index of the target when both ids are
    listed.  The collection and the two other order lists are untouched, so
    the questions every [TopicItem] shows, and their order, are exactly
    what they were. *)
Theorem handleDragEnd_question_same_container
    (a b : string) (qa qb : Question) (s : QuestionState) :
  a <> EmptyString -> b <> EmptyString -> a <> b ->
  find (fun q => String.eqb (_id q) a) (questions s) = Some qa ->
  find (fun q => String.eqb (_id q) b) (questions s) = Some qb ->
  topic qa = topic qb -> subTopic qa = subTopic qb ->
  let s' := handleDragEnd (questionEvent a b) s in
  questions s' = questions s
  /\ topicOrder (config s') = topicOrder (config s)
  /\ subTopicOrder (config s') = subTopicOrder (config s)
  /\ Permutation (questionOrder (config s')) (questionOrder (config s))
  /\ (In a (questionOrder (config s)) -> In b (questionOrder (config s)) ->
      nth_error (questionOrder (config s'))
                (Z.to_nat (indexOf b (questionOrder (config s)))) = Some a)
  /\ (forall t, TopicItem.shownQuestions t s' = TopicItem.shownQuestions t s).
Proof.
  intros Ha Hb Hab Fa Fb Et Es s'. subst s'.
  rewrite (handleDragEnd_questions a b s Ha Hb Hab).
  unfold handleQuestions.
  rewrite (nonempty_true a Ha), (nonempty_true b Hb), Fa, Fb. cbn [andb].
  rewrite Et, String.eqb_refl, (proj2 (opt_eqb_eq _ _) Es). cbn [andb].
  destruct (spliceReorder a b (questionOrder (config s))) as [l'|] eqn:E.
  - cbn [reorderQuestions set_config config questions topicOrder subTopicOrder
         questionOrder].
    repeat split.
    + now apply spliceReorder_perm in E.
    + intros Ia Ib.
      destruct (spliceReorder_found a b _ Ia Ib) as [l2 [E2 [Hn _]]].
      congruence.
  - repeat split; auto.
    intros Ia Ib.
    destruct (spliceReorder_found a b _ Ia Ib) as [l2 [E2 _]]. congruence.
Qed.

Lemma handleDragEnd_question_same_container_witness :
  let q1 := sampleQuestion "q1" "A" None in
  let q2 := sampleQuestion "q2" "A" None in
  let s := stateOf ["A"] empty ["q1"; "q2"] [q1; q2] in
  TopicItem.shownQuestions "A" (handleDragEnd (questionEvent "q1" "q2") s)
  = Some [q1; q2]
  /\ questionOrder (config (handleDragEnd (questionEvent "q1" "q2") s))
     = ["q2"; "q1"].
Proof.
  intros q1 q2 s.
  assert (Ha : "q1" <> EmptyString) by discriminate.
  assert (Hb : "q2" <> EmptyString) by discriminate.
  assert (Hab : "q1" <> "q2") by discriminate.
  assert (Fa : find (fun q => String.eqb (_id q) "q1") (questions s) = Some q1)
    by reflexivity.
  assert (Fb : find (fun q => String.eqb (_id q) "q2") (questions s) = Some q2)
    by reflexivity.
  destruct (handleDragEnd_question_same_container "q1" "q2" q1 q2 s
              Ha Hb Hab Fa Fb eq_refl eq_refl) as [_ [_ [_ [_ [_ P]]]]].
  split; [rewrite P | ]; reflexivity.
Defined.

Lemma sameButContainer_refl (q : Question) : sameButContainer q q.
Proof. repeat split. Qed.

Lemma Forall2_same {A : Type} (R : A -> A -> Prop) (l : list A) :
  (forall x, R x x) -> Forall2 R l l.
Proof. intros H. induction l; constructor; auto. Qed.

Lemma moveQuestionToSubTopic_same (i t : string) (st : option string)
                                  (s : QuestionState) :
  Forall2 sameButContainer (questions s)
          (questions (moveQuestionToSubTopic i t st s)).
Proof.
  simpl. apply Forall2_map_self. intros q.
  destruct (String.eqb (_id q) i); repeat split.
Qed.

Lemma sameButContainer_ids (l l' : list Question) :
  Forall2 sameButContainer l l' -> map _id l' = map _id l.
Proof.
  induction 1 as [|q q' l l' H _ IH]; simpl; [reflexivity|].
  destruct H as [E _]. now rewrite E, IH.
Qed.

Lemma relabels_refl (s : QuestionState) : relabels s s.
Proof.
  repeat split. apply Forall2_same, sameButContainer_refl.
Qed.

Lemma relabels_map (c : SheetConfig) (f : Question -> Question)
                   (s : QuestionState) :
  topicOrder c = topicOrder (config s) ->
  questionOrder c = questionOrder (config s) ->
  (forall q, sameButContainer q (f q)) ->
  relabels s (set_both c (map f (questions s)) s).
Proof.
  intros Ht Hq Hf. unfold relabels. cbn [set_both config questions loading error].
  repeat split; try assumption. now apply Forall2_map_self.
Qed.

Lemma addSubTopic_relabels (t st : string) (s : QuestionState) :
  relabels s (addSubTopic t st s).
Proof.
  unfold addSubTopic. destruct (listAt _ _); [|apply relabels_refl].
  destruct (negb _); [|apply relabels_refl].
  repeat split. apply Forall2_same, sameButContainer_refl.
Qed.

Lemma editSubTopic_relabels (t o n : string) (s : QuestionState) :
  relabels s (editSubTopic t o n s).
Proof.
  unfold editSubTopic. destruct (listAt _ _); [|apply relabels_refl].
  apply relabels_map; try reflexivity.
  intros q. destruct (_ && _); repeat split.
Qed.

Lemma deleteSubTopic_relabels (t st : string) (s : QuestionState) :
  relabels s (deleteSubTopic t st s).
Proof.
  unfold deleteSubTopic. destruct (listAt _ _); [|apply relabels_refl].
  apply relabels_map; try reflexivity.
  intros q. destruct (_ && _); repeat split.
Qed.

Lemma moveSubTopicToTopic_relabels (st f t : string) (s : QuestionState) :
  relabels s (moveSubTopicToTopic st f t s).
Proof.
  unfold moveSubTopicToTopic. destruct (listAt f _); [|apply relabels_refl].
  destruct (listAt t _); [|apply relabels_refl].
  apply relabels_map; try reflexivity.
  intros q. destruct (_ && _); repeat split.
Qed.

Lemma relabels_ids (s s' : QuestionState) :
  relabels s s' -> map _id (questions s') = map _id (questions s).
Proof. intros (_ & _ & H & _). now apply sameButContainer_ids. Qed.

(** What a gesture can change, branch by branch. *)
Lemma handleDragEnd_effect (event : DragEndEvent) (s : QuestionState) :
  let s' := handleDragEnd event s in
  Forall2 sameButContainer (questions s) (questions s')
  /\ Permutation (topicOrder (config s')) (topicOrder (config s))
  /\ Permutation (questionOrder (config s')) (questionOrder (config s))
  /\ loading s' = loading s
  /\ error s' = error s.
Proof.
  assert (R : Forall2 sameButContainer (questions s) (questions s))
    by (apply Forall2_same, sameButContainer_refl).
  unfold handleDragEnd, handleDragEnd_from.
  destruct (over event) as [o|]; [|now repeat split].
  destruct (String.eqb (active event) o); [now repeat split|].
  destruct (parseId (active event)) as [pa|]; [|now repeat split].
  destruct (parseId o) as [po|]; [|now repeat split].
  destruct pa as [an | at_ [asub|] | aid], po as [on | ot [osub|] | oid];
    cbn [handleTopics handleSubTopics handleQuestions]; try (now repeat split).
  - destruct (nonempty an && nonempty on); [|now repeat split].
    destruct (spliceReorder an on _) eqn:E; [|now repeat split].
    apply spliceReorder_perm in E. simpl. now repeat split.
  - destruct (_ && _); [|now repeat split].
    destruct (String.eqb at_ ot).
    + destruct (listAt _ _); [|now repeat split].
      destruct (spliceReorder asub osub _); now repeat split.
    + destruct (moveSubTopicToTopic_relabels asub at_ ot s)
        as (A & B & C & D & E).
      rewrite A, B, D, E. now repeat split.
  - destruct (nonempty aid && nonempty oid); [|now repeat split].
    destruct (find _ _) as [qa|]; [|now repeat split].
    destruct (find _ _) as [qb|]; [|now repeat split].
    destruct (_ && _).
    + destruct (spliceReorder aid oid _) eqn:E; [|now repeat split].
      apply spliceReorder_perm in E. simpl. now repeat split.
    + pose proof (moveQuestionToSubTopic_same aid (topic qb) (subTopic qb) s) as M.
      destruct (spliceReorder aid oid _) eqn:E.
      * apply spliceReorder_perm in E. simpl in *. now repeat split.
      * simpl in *. now repeat split.
Qed.

(* ===================================================================== *)
(** ** questionOrder and the collection stay in step *)
(* ===================================================================== *)

Lemma map_id_relabel (f : Question -> Question) (qs : list Question) :
  (forall q, _id (f q) = _id q) -> map _id (map f qs) = map _id qs.
Proof. intros H. rewrite map_map. apply map_ext. exact H. Qed.

(** Dropping questions cannot make an id appear twice. *)
Lemma ids_filter_NoDup (keep : Question -> bool) (qs : list Question) :
  NoDup (map _id qs) -> NoDup (map _id (filter keep qs)).
Proof.
  intros Hids. induction qs as [|q rest IH]; [exact Hids|].
  cbn [map filter] in *. apply NoDup_cons_iff in Hids as [Hfresh Hrest].
  destruct (keep q); [|exact (IH Hrest)].
  cbn [map]. apply NoDup_cons_iff. split; [|exact (IH Hrest)].
  intros Hin. apply Hfresh.
  apply in_map_iff in Hin as [q' [Eq Hq']].
  apply in_map_iff. exists q'. split; [exact Eq|].
  apply filter_In in Hq'. tauto.
Qed.

(** An action that relabels questions without touching an id or
    questionOrder keeps the agreement. *)
Lemma itemsConsistent_relabel (s s' : QuestionState) :
  questionOrder (config s') = questionOrder (config s) ->
  map _id (questions s') = map _id (questions s) ->
  itemsConsistent s -> itemsConsistent s'.
Proof. unfold itemsConsistent. intros -> ->. tauto. Qed.

Lemma merge_keeps_id (q : Question) (u : PartialQuestion) :
  p_id u = None -> _id (merge q u) = _id q.
Proof. intros H. unfold merge. simpl. now rewrite H. Qed.

Lemma itemsConsistent_deleteTopic (t : string) (s : QuestionState) :
  itemsConsistent s -> itemsConsistent (deleteTopic t s).
Proof.
  intros (Ho & Hq & Hm). unfold itemsConsistent. simpl.
  split; [now apply NoDup_filter|]. split; [now apply ids_filter_NoDup|].
  intros id. rewrite filter_In, existsb_exists. split.
  - intros [_ [q [Hq' E]]]. apply String.eqb_eq in E. subst.
    now apply in_map.
  - intros H. apply in_map_iff in H as [q [E Hq']]. subst. split.
    + apply Hm. apply in_map. apply filter_In in Hq'. tauto.
    + exists q. split; auto. apply String.eqb_refl.
Qed.

Lemma itemsConsistent_deleteQuestion (i : string) (s : QuestionState) :
  itemsConsistent s -> itemsConsistent (deleteQuestion i s).
Proof.
  intros (Ho & Hq & Hm). unfold itemsConsistent. simpl.
  split; [now apply NoDup_filter|]. split; [now apply ids_filter_NoDup|].
  intros id. rewrite filter_In, negb_true_iff, String.eqb_neq, Hm, !in_map_iff.
  split.
  - intros [[q [E Hq']] Hne]. exists q. split; auto.
    apply filter_In. split; auto.
    apply negb_true_iff, String.eqb_neq. congruence.
  - intros [q [E Hq']]. apply filter_In in Hq' as [Hq' Hne].
    apply negb_true_iff, String.eqb_neq in Hne.
    split; [eauto | congruence].
Qed.

Lemma itemsConsistent_addQuestion (now : N) (p : PartialQuestion)
                                  (s : QuestionState) :
  ~ In (tempId now) (questionOrder (config s)) ->
  itemsConsistent s -> itemsConsistent (addQuestion now p s).
Proof.
  intros Hf (Ho & Hq & Hm). unfold itemsConsistent. simpl.
  rewrite map_app. simpl. fold (tempId now).
  split; [now apply NoDup_snoc|].
  split; [apply NoDup_snoc; auto; now rewrite <- Hm|].
  intros id. rewrite !in_app_iff, Hm. tauto.
Qed.

Lemma itemsConsistent_fetch (r : Response) (s : QuestionState) :
  payloadConsistent r ->
  itemsConsistent s -> itemsConsistent (fetchSheetData r s).
Proof.
  intros Hp Hs. unfold fetchSheetData, fetchSheetData_settle, ingest.
  destruct r as [d | e]; [|exact Hs]. simpl in Hp.
  destruct (sheet_config d) as [cfg|]; [|exact Hs].
  destruct (data_questions d) as [qs|]; [|exact Hs].
  destruct (raw_topicOrder cfg) as [all|]; [|exact Hs].
  destruct (transform all) as [t|e]; [|exact Hs].
  unfold itemsConsistent. simpl.
  assert (E : map _id (map (transformQuestion (topicMapping t)) qs)
              = map _id qs).
  { apply map_id_relabel. intros q. unfold transformQuestion.
    now destruct (read (topic q) _). }
  rewrite E. destruct (raw_questionOrder cfg) as [order|].
  - exact Hp.
  - subst qs. simpl. split; [constructor | split; [constructor | tauto]].
Qed.

(** X9.  From a state in which questionOrder and the collection agree (the
    same ids, none twice), every action of the store leaves them in
    agreement, provided that [addQuestion] is given a clock reading whose
    id is not yet listed, [editQuestion] does not change the id,
    [reorderQuestions] is given a permutation of the current order, and a
    fetch brings a payload in which the two agree. *)
Theorem itemsConsistent_step (a : Action) (s : QuestionState) :
  itemsConsistent s -> keepsItemsConsistent a s -> itemsConsistent (run a s).
Proof.
  intros Hs Hk.
  destruct a; simpl in Hk |- *;
    try (apply (itemsConsistent_relabel s); [reflexivity | | exact Hs];
         solve [ reflexivity
               | simpl; apply map_id_relabel; intros q;
                 match goal with |- context [if ?c then _ else _] =>
                   destruct c; reflexivity end ]).
  - unfold addTopic. now destruct (negb _).
  - now apply itemsConsistent_deleteTopic.
  - apply (itemsConsistent_relabel s);
      [apply addSubTopic_relabels | apply relabels_ids, addSubTopic_relabels
      | exact Hs].
  - apply (itemsConsistent_relabel s);
      [apply editSubTopic_relabels | apply relabels_ids, editSubTopic_relabels
      | exact Hs].
  - apply (itemsConsistent_relabel s);
      [apply deleteSubTopic_relabels
      | apply relabels_ids, deleteSubTopic_relabels | exact Hs].
  - apply (itemsConsistent_relabel s);
      [apply moveSubTopicToTopic_relabels
      | apply relabels_ids, moveSubTopicToTopic_relabels | exact Hs].
  - now apply itemsConsistent_addQuestion.
  - apply (itemsConsistent_relabel s); [reflexivity | | exact Hs].
    simpl. apply map_id_relabel. intros q.
    destruct (String.eqb (_id q) _); auto using merge_keeps_id.
  - now apply itemsConsistent_deleteQuestion.
  - destruct Hs as (Ho & Hq & Hm). unfold itemsConsistent. simpl.
    split; [eapply Permutation_NoDup; [symmetry; exact Hk | exact Ho]|].
    split; [exact Hq|]. intros id. rewrite <- Hm.
    split; apply Permutation_in; [exact Hk | symmetry; exact Hk].
  - now apply itemsConsistent_fetch.
Qed.

Lemma itemsConsistent_step_witness :
  let s := stateOf ["A"] empty ["q1"; "q2"]
                   [sampleQuestion "q1" "A" None; sampleQuestion "q2" "A" None] in
  itemsConsistent s
  /\ itemsConsistent (run (DeleteQuestion "q1") s)
  /\ itemsConsistent (run (AddQuestion 17 (mkPartialQuestion None None None None None None)) s).
Proof.
  intros s.
  assert (H : itemsConsistent s).
  { unfold itemsConsistent. simpl.
    split; [|split; [|tauto]];
      repeat constructor; simpl; intuition discriminate. }
  split; [exact H|]. split.
  - apply (itemsConsistent_step (DeleteQuestion "q1") s H). exact I.
  - apply (itemsConsistent_step (AddQuestion 17 _) s H).
    simpl. vm_compute. intuition discriminate.
Defined.

(** X8.  Whatever the gesture, the handler neither adds nor removes a
    question and never touches an id, a title, a resource or a reference:
    position by position the questions differ at most by their container.
    topicOrder and questionOrder are permutations of what they were, and the
    loading and error flags are kept.  So a state in which questionOrder
    and the collection agree stays so through any gesture. *)
Theorem handleDragEnd_keeps_collection (event : DragEndEvent) (s : QuestionState) :
  let s' := handleDragEnd event s in
  Forall2 sameButContainer (questions s) (questions s')
  /\ Permutation (topicOrder (config s')) (topicOrder (config s))
  /\ Permutation (questionOrder (config s')) (questionOrder (config s))
  /\ loading s' = loading s
  /\ error s' = error s
  /\ (itemsConsistent s -> itemsConsistent s').
Proof.
  intros s'.
  destruct (handleDragEnd_effect event s) as (HF & HT & HQ & HL & HE).
  fold s' in HF, HT, HQ, HL, HE.
  repeat (split; [assumption|]).
  intros (Ho & Hq & Hm). unfold itemsConsistent.
  rewrite (sameButContainer_ids _ _ HF).
  split; [eapply Permutation_NoDup; [symmetry; exact HQ | exact Ho]|].
  split; [exact Hq|]. intros id. rewrite <- Hm.
  split; apply Permutation_in; [exact HQ | symmetry; exact HQ].
Qed.

Lemma handleDragEnd_keeps_collection_witness :
  let s := stateOf ["A"; "B"] empty ["q1"; "q2"]
                   [sampleQuestion "q1" "A" None; sampleQuestion "q2" "B" None] in
  itemsConsistent (handleDragEnd (questionEvent "q1" "q2") s).
Proof.
  intros s.
  destruct (handleDragEnd_keeps_collection (questionEvent "q1" "q2") s)
    as (_ & _ & _ & _ & _ & K).
  apply K. unfold itemsConsistent. simpl.
  split; [|split; [|tauto]];
    repeat constructor; simpl; intuition discriminate.
Defined.

(* ===================================================================== *)
(** ** Sub-topic lists stay free of duplicates *)
(* ===================================================================== *)

Lemma get_set_cases {V : Type} (k k' : string) (v l : V) (o : obj V) :
  get k' (set k v o) = Some l ->
  (k' = k /\ l = v) \/ (k' <> k /\ get k' o = Some l).
Proof.
  destruct (string_dec k' k) as [-> | Hne].
  - rewrite get_set_same. intros [= <-]. now left.
  - rewrite get_set_other by exact Hne. now right.
Qed.















(* ===================================================================== *)
(** ** Deleting a sub-topic orphans its questions *)
(* ===================================================================== *)

Lemma filter_map_none {A : Type} (p : A -> bool) (f : A -> A) (l : list A) :
  (forall x, p (f x) = false) -> filter p (map f l) = [].
Proof. intros H. induction l; simpl; [reflexivity | now rewrite H]. Qed.








(* ===================================================================== *)
(** ** Renaming a topic *)
(* ===================================================================== *)

Lemma editTopic_count (old new : string) (qs : list Question) :
  old <> new ->
  let f := fun q => if String.eqb (topic q) old then with_topic new q else q in
  length (filter (fun q => String.eqb (topic q) new) (map f qs))
  = (length (filter (fun q => String.eqb (topic q) old) qs)
     + length (filter (fun q => String.eqb (topic q) new) qs))%nat.
Proof.
  intros Hne f. apply String.eqb_neq in Hne.
  induction qs as [|q r IH]; simpl; [reflexivity|].
  unfold f at 1. destruct (String.eqb (topic q) old) eqn:E.
  - apply String.eqb_eq in E. rewrite E, Hne. simpl.
    rewrite String.eqb_refl. simpl. now rewrite IH.
  - destruct (String.eqb (topic q) new); simpl; rewrite IH; lia.
Qed.

Lemma editTopic_other (old new t : string) (qs : list Question) :
  t <> old -> t <> new ->
  let f := fun q => if String.eqb (topic q) old then with_topic new q else q in
  filter (fun q => String.eqb (topic q) t) (map f qs)
  = filter (fun q => String.eqb (topic q) t) qs.
Proof.
  intros Ho Hn f.
  assert (Eo : String.eqb old t = false) by (apply String.eqb_neq; congruence).
  assert (En : String.eqb new t = false) by (apply String.eqb_neq; congruence).
  induction qs as [|q r IH]; simpl; [reflexivity|].
  rewrite IH. unfold f. destruct (String.eqb (topic q) old) eqn:E.
  - apply String.eqb_eq in E. rewrite E, Eo.
    cbn [topic with_topic]. now rewrite En.
  - reflexivity.
Qed.

(** X13.  [editTopic old new] with [old <> new] leaves no question under
    [old]; the questions under [new] are then as many as those that were
    under [old] and under [new] together; the questions of every other topic
    are the same list; no question is added or removed, and none changes its
    id, title, resource, reference or sub-topic. *)
Theorem editTopic_questions (old new : string) (s : QuestionState) :
  old <> new ->
  let s' := editTopic old new s in
  getQuestionsByTopic old s' = []
  /\ length (getQuestionsByTopic new s')
     = (length (getQuestionsByTopic old s) + length (getQuestionsByTopic new s))%nat
  /\ (forall t, t <> old -> t <> new ->
        getQuestionsByTopic t s' = getQuestionsByTopic t s)
  /\ Forall2 (fun q q' => sameButContainer q q' /\ subTopic q' = subTopic q)
             (questions s) (questions s')
  /\ questionOrder (config s') = questionOrder (config s).
Proof.
  intros Hne s'. subst s'. unfold getQuestionsByTopic.
  cbn [editTopic questions set_both config questionOrder].
  split; [|split; [|split; [|split; [|reflexivity]]]].
  - apply filter_map_none. intros q.
    destruct (String.eqb (topic q) old) eqn:E; [|exact E].
    simpl. apply String.eqb_neq. congruence.
  - now apply editTopic_count.
  - intros t Ho Hn. now apply editTopic_other.
  - apply Forall2_map_self. intros q.
    destruct (String.eqb (topic q) old); repeat split.
Qed.

Lemma editTopic_questions_witness :
  let s := stateOf ["A"; "B"] empty ["q1"; "q2"; "q3"]
                   [sampleQuestion "q1" "A" None; sampleQuestion "q2" "B" None;
                    sampleQuestion "q3" "A" None] in
  length (getQuestionsByTopic "B" (editTopic "A" "B" s)) = 3%nat.
Proof.
  intros s.
  assert (H : "A" <> "B") by discriminate.
  destruct (editTopic_questions "A" "B" s H) as [_ [P _]].
  rewrite P. reflexivity.
Defined.

Lemma find_app_first {A : Type} (p : A -> bool) (l1 l2 : list A) :
  find p (l1 ++ l2)
  = match find p l1 with Some x => Some x | None => find p l2 end.
Proof.
  induction l1 as [|x r IH]; simpl; [reflexivity|].
  now destruct (p x).
Qed.

Lemma get_assign_proto {V : Type} (k : string) (v : V) (o : obj V) :
  get "__proto__" o = None -> get "__proto__" (assign k v o) = None.
Proof.
  intros H. unfold assign. destruct (get k o) eqn:G.
  - rewrite get_set_other; [exact H | congruence].
  - destruct (String.eqb k "__proto__") eqn:E; [exact H|].
    apply String.eqb_neq in E. rewrite get_set_other; [exact H | congruence].
Qed.

Lemma get_assign_other {V : Type} (k k' : string) (v : V) (o : obj V) :
  k' <> k -> get k' (assign k v o) = get k' o.
Proof.
  intros H. destruct (assign_cases k v o) as [-> | ->];
    [now apply get_set_other | reflexivity].
Qed.

Lemma get_assign_same {V : Type} (k : string) (v : V) (o : obj V) :
  k <> "__proto__" -> get k (assign k v o) = Some v.
Proof. intros H. rewrite assign_set by exact H. apply get_set_same. Qed.

(** Assigning [val key] to the property [ren key] for each key in turn, in
    an object without a property "__proto__" of its own: no such property
    appears, and what is read back under another [k] is the value of the
    last key renamed to [k]. *)
Lemma get_fold_rename {V : Type} (ren : string -> string) (val : string -> V)
                      (ks : list string) (u0 : obj V) (k : string) :
  get "__proto__" u0 = None ->
  get k (fold_left (fun u key => assign (ren key) (val key) u) ks u0)
  = if String.eqb k "__proto__" then None
    else match find (fun key => String.eqb (ren key) k) (rev ks) with
         | Some key => Some (val key)
         | None => get k u0
         end.
Proof.
  revert u0. induction ks as [|key r IH]; intros u0 H0; simpl.
  - destruct (String.eqb k "__proto__") eqn:E; [|reflexivity].
    apply String.eqb_eq in E. now subst k.
  - rewrite (IH _ (get_assign_proto (ren key) (val key) u0 H0)).
    destruct (String.eqb k "__proto__") eqn:Ep; [reflexivity|].
    apply String.eqb_neq in Ep.
    rewrite find_app_first.
    destruct (find _ (rev r)); [reflexivity|]. simpl.
    destruct (String.eqb (ren key) k) eqn:E.
    + apply String.eqb_eq in E. subst k. now apply get_assign_same.
    + apply String.eqb_neq in E. apply get_assign_other. congruence.
Qed.

Lemma in_keys_get {V : Type} (k : string) (o : obj V) :
  In k (keys o) <-> get k o <> None.
Proof.
  rewrite get_none_notin. split.
  - intros H N. apply N. eapply Permutation_in; [apply keys_perm | exact H].
  - intros H. destruct (in_dec string_dec k (map fst o)) as [I | N];
      [|contradiction].
    eapply Permutation_in; [symmetry; apply keys_perm | exact I].
Qed.

Lemma editTopic_lookup (old new : string) (s : QuestionState) :
  old = new \/ get new (subTopicOrder (config s)) = None ->
  forall k,
    get k (subTopicOrder (config (editTopic old new s)))
    = if String.eqb k "__proto__" then None
      else if String.eqb k new then get old (subTopicOrder (config s))
      else if String.eqb k old then None
      else get k (subTopicOrder (config s)).
Proof.
  intros Hfree k. set (subs := subTopicOrder (config s)).
  cbn [editTopic set_both config subTopicOrder]. fold subs.
  rewrite (get_fold_rename (rename old new) (fun key => get_or_empty key subs))
    by reflexivity.
  destruct (String.eqb k "__proto__"); [reflexivity|].
  assert (Hval : forall key, In key (keys subs) ->
                             Some (get_or_empty key subs) = get key subs).
  { intros key Hk. apply in_keys_get in Hk. unfold get_or_empty.
    destruct (get key subs); congruence. }
  destruct (find _ (rev (keys subs))) as [key|] eqn:F.
  - apply find_some in F as [Hin E]. apply in_rev in Hin.
    apply String.eqb_eq in E. rewrite (Hval key Hin).
    unfold rename in E. destruct (String.eqb key old) eqn:Eo.
    + apply String.eqb_eq in Eo. subst key k. now rewrite String.eqb_refl.
    + subst k. apply String.eqb_neq in Eo.
      destruct (String.eqb key new) eqn:En.
      * apply String.eqb_eq in En. subst key.
        destruct Hfree as [-> | Hn]; [congruence|].
        apply in_keys_get in Hin. contradiction.
      * now rewrite (proj2 (String.eqb_neq key old) Eo).
  - assert (Hnone : forall key, In key (keys subs) -> rename old new key <> k).
    { intros key Hin. apply in_rev in Hin.
      apply (find_none _ _ F) in Hin. now apply String.eqb_neq. }
    cbn [get empty].
    assert (Hget : forall key, rename old new key = k -> get key subs = None).
    { intros key E. destruct (get key subs) eqn:G; [|reflexivity].
      exfalso. apply (Hnone key); [|exact E].
      apply in_keys_get. congruence. }
    destruct (String.eqb k new) eqn:En.
    + apply String.eqb_eq in En. subst k. symmetry. apply Hget, rename_same.
    + destruct (String.eqb k old) eqn:Eo; [reflexivity|].
      apply String.eqb_neq in Eo. symmetry. apply Hget.
      now apply rename_other.
Qed.

(** X14.  [editTopic old new] rebuilds subTopicOrder by plain assignment
    into a fresh object, so the result never has a property "__proto__" of
    its own: a list that would be assigned to that name is dropped.  For
    every other name, when [new] has no list of its own (or is [old]
    itself), the list of [old] is moved to [new]: afterwards [new] has what
    [old] had, [old] has nothing (unless it is [new]), and every other topic
    has what it had before. *)
Theorem editTopic_subTopicOrder (old new : string) (s : QuestionState) :
  old = new \/ get new (subTopicOrder (config s)) = None ->
  forall k,
    get k (subTopicOrder (config (editTopic old new s)))
    = if String.eqb k "__proto__" then None
      else if String.eqb k new then get old (subTopicOrder (config s))
      else if String.eqb k old then None
      else get k (subTopicOrder (config s)).
Proof. exact (editTopic_lookup old new s). Qed.

Lemma editTopic_subTopicOrder_witness :
  let s := stateOf ["DP"; "Graphs"] [("DP", ["DP Part-I"; "DP Part-II"])] [] [] in
  get "Dynamic Programming"
      (subTopicOrder (config (editTopic "DP" "Dynamic Programming" s)))
  = Some ["DP Part-I"; "DP Part-II"]
  /\ get "__proto__" (subTopicOrder (config (editTopic "DP" "__proto__" s)))
     = None.
Proof.
  intros s.
  assert (H : "DP" = "Dynamic Programming"
              \/ get "Dynamic Programming" (subTopicOrder (config s)) = None)
    by (right; reflexivity).
  assert (H' : "DP" = "__proto__"
               \/ get "__proto__" (subTopicOrder (config s)) = None)
    by (right; reflexivity).
  rewrite (editTopic_subTopicOrder "DP" "Dynamic Programming" s H).
  rewrite (editTopic_subTopicOrder "DP" "__proto__" s H').
  split; reflexivity.
Defined.

(* ===================================================================== *)
(** ** Adding and deleting questions *)
(* ===================================================================== *)

Lemma addQuestion_id (now : N) (p : PartialQuestion) (s : QuestionState) :
  map _id (questions (addQuestion now p s))
  = map _id (questions s) ++ [tempId now]
  /\ questionOrder (config (addQuestion now p s))
     = questionOrder (config s) ++ [tempId now].
Proof. simpl. rewrite map_app. split; reflexivity. Qed.

Lemma filter_app_last {A : Type} (p : A -> bool) (l : list A) (x : A) :
  p x = false -> filter p (l ++ [x]) = filter p l.
Proof. intros H. rewrite filter_app. simpl. rewrite H. apply app_nil_r. Qed.

(** X15.  Adding a question and deleting it again gives back the state as
    it was, when the id made from the clock reading was not in use (neither
    borne by a question nor listed in questionOrder). *)
Theorem addQuestion_deleteQuestion (now : N) (p : PartialQuestion)
                                   (s : QuestionState) :
  (forall q, In q (questions s) -> _id q <> tempId now) ->
  ~ In (tempId now) (questionOrder (config s)) ->
  deleteQuestion (tempId now) (addQuestion now p s) = s.
Proof.
  intros Hq Ho. unfold deleteQuestion, addQuestion, set_both.
  cbn [questions config questionOrder topicOrder subTopicOrder loading error _id].
  fold (tempId now).
  rewrite !filter_app_last
    by (apply negb_false_iff; apply String.eqb_refl).
  rewrite !filter_id.
  - destruct s as [[t st qo] qs l e]. reflexivity.
  - intros q Hin. apply negb_true_iff, String.eqb_neq. auto.
  - intros x Hx. apply negb_true_iff, String.eqb_neq.
    intros E. subst x. contradiction.
Qed.

Lemma addQuestion_deleteQuestion_witness :
  let s := stateOf ["A"] empty ["q1"] [sampleQuestion "q1" "A" None] in
  deleteQuestion (tempId 1700000000000)
    (addQuestion 1700000000000
       (mkPartialQuestion None (Some "Two Sum") (Some "A") None None None) s)
  = s.
Proof.
  intros s.
  apply (addQuestion_deleteQuestion 1700000000000 _ s).
  - intros q [<- | []]. vm_compute. discriminate.
  - intros [E | []]. vm_compute in E. discriminate.
Defined.

Lemma tempId_inj (a b : N) : tempId a = tempId b -> a = b.
Proof.
  unfold tempId. intros E. simpl in E. injection E as E.
  apply (f_equal DecimalString.NilEmpty.uint_of_string) in E.
  rewrite !DecimalString.NilEmpty.usu in E. injection E as E.
  apply (f_equal N.of_uint) in E.
  now rewrite !DecimalN.Unsigned.of_to in E.
Qed.

(** X16.  The id of a new question depends on the clock reading alone:
    different readings give different ids, and two questions added at the
    same reading bear the same id, twice in the collection and twice in
    questionOrder; one [deleteQuestion] of that id then removes both (the
    state is the one the deletion gives without the two additions). *)
Theorem addQuestion_clock_ids (now : N) (p1 p2 : PartialQuestion)
                              (s : QuestionState) :
  (forall other, tempId other = tempId now -> other = now)
  /\ (let s2 := addQuestion now p2 (addQuestion now p1 s) in
      map _id (questions s2) = map _id (questions s) ++ [tempId now; tempId now]
      /\ questionOrder (config s2)
         = questionOrder (config s) ++ [tempId now; tempId now]
      /\ deleteQuestion (tempId now) s2 = deleteQuestion (tempId now) s).
Proof.
  split; [intros other; apply tempId_inj|].
  cbn zeta.
  destruct (addQuestion_id now p2 (addQuestion now p1 s)) as [I2 O2].
  destruct (addQuestion_id now p1 s) as [I1 O1].
  rewrite I2, O2, I1, O1, <- !app_assoc.
  split; [reflexivity|]. split; [reflexivity|].
  unfold deleteQuestion, addQuestion, set_both.
  cbn [questions config questionOrder topicOrder subTopicOrder loading error _id].
  fold (tempId now).
  rewrite !filter_app_last
    by (apply negb_false_iff; apply String.eqb_refl).
  reflexivity.
Qed.

Lemma addQuestion_clock_ids_witness :
  let p := mkPartialQuestion None (Some "Two Sum") (Some "A") None None None in
  (1700000000000 = 1700000000000)%N
  /\ deleteQuestion (tempId 1700000000000)
       (addQuestion 1700000000000 p (addQuestion 1700000000000 p initial))
     = deleteQuestion (tempId 1700000000000) initial.
Proof.
  intros p.
  destruct (addQuestion_clock_ids 1700000000000 p p initial) as [I [_ [_ D]]].
  split; [exact (I 1700000000000%N eq_refl) | exact D].
Defined.

(* ===================================================================== *)
(** ** The part pattern of the ingestion transform *)
(* ===================================================================== *)

Lemma to_upper_space (c : ascii) : is_space (to_upper c) = is_space c.
Proof. destruct c as [[] [] [] [] [] [] [] []]; reflexivity. Qed.

Lemma eq_ci_space (a c : ascii) : eq_ci a c = true -> is_space c = is_space a.
Proof.
  unfold eq_ci. intros H. apply Ascii.eqb_eq in H.
  now rewrite <- (to_upper_space c), <- H, to_upper_space.
Qed.

Lemma is_digit_notSpace (c : ascii) : is_digit c = true -> notSpace c = true.
Proof.
  destruct c as [[] [] [] [] [] [] [] []]; vm_compute; intros; congruence.
Qed.

Lemma is_roman_notSpace (c : ascii) : is_roman c = true -> notSpace c = true.
Proof.
  unfold is_roman, notSpace. intros H.
  apply orb_true_iff in H as [H | H]; [apply orb_true_iff in H as [H | H]|];
    unfold eq_ci in H; apply Ascii.eqb_eq in H;
    rewrite <- (to_upper_space c), H; reflexivity.
Qed.

Lemma forallb_str_impl (p q : ascii -> bool) (s : string) :
  (forall c, p c = true -> q c = true) ->
  forallb_str p s = true -> forallb_str q s = true.
Proof.
  intros H. induction s as [|c r IH]; simpl; [reflexivity|].
  intros E. apply andb_true_iff in E as [E1 E2].
  now rewrite (H c E1), (IH E2).
Qed.

Lemma forallb_str_app (p : ascii -> bool) (u v : string) :
  forallb_str p (u ++ v) = forallb_str p u && forallb_str p v.
Proof.
  induction u as [|c r IH]; simpl; [reflexivity|].
  now rewrite IH, andb_assoc.
Qed.

(** A string the token pattern accepts has no space in it. *)
Lemma match_part_token_notSpace (s : string) :
  match_part_token s = true -> forallb_str notSpace s = true.
Proof.
  unfold match_part_token.
  destruct s as [|c1 [|c2 [|c3 [|c4 [|c5 r]]]]]; simpl; try discriminate;
    try (destruct (eq_ci _ c1); try discriminate;
         destruct (eq_ci _ c2); try discriminate;
         destruct (eq_ci _ c3); try discriminate;
         destruct (eq_ci _ c4); discriminate).
  destruct (eq_ci "P" c1) eqn:E1; [|discriminate].
  destruct (eq_ci "a" c2) eqn:E2; [|discriminate].
  destruct (eq_ci "r" c3) eqn:E3; [|discriminate].
  destruct (eq_ci "t" c4) eqn:E4; [|discriminate].
  destruct (eq_ci "-" c5) eqn:E5; [|discriminate].
  intros H. apply andb_true_iff in H as [_ H].
  unfold notSpace at 1 2 3 4 5.
  rewrite (eq_ci_space _ _ E1), (eq_ci_space _ _ E2), (eq_ci_space _ _ E3),
          (eq_ci_space _ _ E4), (eq_ci_space _ _ E5).
  cbn -[forallb_str notSpace].
  apply orb_true_iff in H as [H | H].
  - exact (forallb_str_impl _ _ r is_roman_notSpace H).
  - exact (forallb_str_impl _ _ r is_digit_notSpace H).
Qed.

Lemma match_part_token_nonempty (s : string) :
  match_part_token s = true -> nonempty s = true.
Proof. destruct s; [discriminate | reflexivity]. Qed.

Lemma trimStart_notSpace (s : string) :
  forallb_str notSpace s = true -> trimStart s = s.
Proof.
  destruct s as [|c r]; simpl; [reflexivity|].
  unfold notSpace at 1. intros H. apply andb_true_iff in H as [H _].
  apply negb_true_iff in H. now rewrite H.
Qed.

Lemma endsClean_tail (c : ascii) (r : string) :
  endsClean (String c r) = true -> endsClean r = true.
Proof. destruct r; simpl; auto. Qed.

Lemma endsClean_trimStart (b x : string) :
  endsClean b = true -> b <> EmptyString ->
  exists u, u <> EmptyString /\ trimStart (b ++ x) = (u ++ x)%string.
Proof.
  induction b as [|c r IH]; intros He Hn; [congruence|].
  simpl. destruct (is_space c) eqn:Ec.
  - destruct r as [|c' r'].
    + simpl in He. unfold notSpace in He. rewrite Ec in He. discriminate.
    + apply IH; [exact (endsClean_tail c _ He) | discriminate].
  - exists (String c r). split; [discriminate | reflexivity].
Qed.

(** No proper start inside the base can be where the suffix pattern
    matches. *)
Lemma match_part_suffix_inside (c sp : ascii) (r tok : string) :
  endsClean (String c r) = true -> is_space sp = true ->
  match_part_suffix (String c r ++ String sp tok) = false.
Proof.
  intros He Hsp. simpl. destruct (is_space c) eqn:Ec; [|reflexivity].
  simpl. destruct r as [|c' r'].
  - simpl in He. unfold notSpace in He. rewrite Ec in He. discriminate.
  - destruct (endsClean_trimStart (String c' r') (String sp tok))
      as [u [Hu E]]; [exact (endsClean_tail c _ He) | discriminate |].
    rewrite E.
    destruct (match_part_token (u ++ String sp tok)) eqn:M; [|reflexivity].
    apply match_part_token_notSpace in M.
    rewrite forallb_str_app in M. apply andb_true_iff in M as [_ M].
    simpl in M. unfold notSpace at 1 in M. rewrite Hsp in M. discriminate.
Qed.

Lemma partMatch_base (b tok : string) (sp : ascii) :
  noLineTerminator b = true -> endsClean b = true ->
  is_space sp = true -> match_part_token tok = true ->
  partMatch (b ++ String sp tok) = Some b.
Proof.
  intros Hl He Hsp Ht.
  induction b as [|c r IH].
  - simpl. rewrite Hsp.
    rewrite (trimStart_notSpace tok (match_part_token_notSpace tok Ht)), Ht.
    reflexivity.
  - change (partMatch (String c r ++ String sp tok))
      with (if match_part_suffix (String c r ++ String sp tok)
            then Some EmptyString
            else if is_line_terminator c then None
                 else option_map (String c) (partMatch (r ++ String sp tok))).
    rewrite (match_part_suffix_inside c sp r tok He Hsp).
    unfold noLineTerminator in Hl. simpl in Hl.
    apply andb_true_iff in Hl as [Hc Hr].
    apply negb_true_iff in Hc. rewrite Hc.
    rewrite (IH Hr (endsClean_tail c r He)). reflexivity.
Qed.

Lemma partMatch_notSpace (s : string) :
  forallb_str notSpace s = true -> partMatch s = None.
Proof.
  induction s as [|c r IH]; [reflexivity|].
  simpl. unfold notSpace at 1. intros H.
  apply andb_true_iff in H as [Hc Hr]. apply negb_true_iff in Hc.
  rewrite Hc. simpl.
  assert (Hlt : is_line_terminator c = false).
  { revert Hc.
    destruct c as [[] [] [] [] [] [] [] []]; vm_compute; intros; congruence. }
  now rewrite Hlt, (IH Hr).
Qed.

(** X17.  The part pattern.  A name made of a base, one space character and
    a part token ("Part-" in any case followed by Roman numerals I, V, X in
    any case, or by digits) is matched, and the captured group is the base,
    whenever the base has no line terminator and does not end with a space;
    a name without any space character is never matched. *)
Theorem partMatch_spec :
  (forall (b tok : string) (sp : ascii),
     noLineTerminator b = true -> endsClean b = true ->
     is_space sp = true -> match_part_token tok = true ->
     partMatch (b ++ String sp tok) = Some b)
  /\ (forall s, forallb_str notSpace s = true -> partMatch s = None).
Proof. split; [exact partMatch_base | exact partMatch_notSpace]. Qed.

Lemma partMatch_spec_witness :
  partMatch "Binary Search part-12" = Some "Binary Search"
  /\ partMatch "Graphs" = None.
Proof.
  destruct partMatch_spec as [P N]. split.
  - apply (P "Binary Search" "part-12" " "%char); reflexivity.
  - apply (N "Graphs"). reflexivity.
Defined.

(* ===================================================================== *)
(** ** What a successful ingestion guarantees *)
(* ===================================================================== *)

Lemma secondPass_step_order (groups : obj (list string)) (acc : Transformed)
                            (b : string) :
  transformedTopicOrder (secondPass_step groups acc b)
  = transformedTopicOrder acc ++ [b].
Proof. unfold secondPass_step. now destruct (1 <? length _)%nat. Qed.

Lemma get_assign_cases {V : Type} (k k' : string) (v l : V) (o : obj V) :
  get k' (assign k v o) = Some l ->
  (k' = k /\ l = v) \/ (k' <> k /\ get k' o = Some l).
Proof.
  unfold assign. destruct (get k o) eqn:G; [apply get_set_cases|].
  destruct (String.eqb k "__proto__"); [|apply get_set_cases].
  intros H. right. split; [|exact H]. intros ->. congruence.
Qed.

Lemma inherited_proto (k : string) : inherited k = None -> k <> "__proto__".
Proof. intros H ->. discriminate. Qed.

(** A [push] that does not throw appends to the group, created if absent. *)
Lemma push_group_some (k x : string) (g g' : obj (list string)) :
  push_group k x g = Some g' ->
  g' = set k (get_or_empty k g ++ [x]) g /\ listable k g.
Proof.
  unfold push_group, read, get_or_empty, listable.
  destruct (get k g) as [l|].
  - intros [= <-]. split; [reflexivity | left; discriminate].
  - destruct (inherited k); [discriminate|].
    intros [= <-]. split; [reflexivity | now right].
Qed.

Lemma push_group_listable (k x : string) (g : obj (list string)) :
  listable k g -> push_group k x g = Some (set k (get_or_empty k g ++ [x]) g).
Proof.
  unfold push_group, read, get_or_empty, listable.
  destruct (get k g) as [l|]; [reflexivity|].
  intros [H | H]; [congruence | now rewrite H].
Qed.

(** The key of a step that does not throw is [partBase]; the step files the
    topic under it, or resets the entry of a standalone topic. *)
Lemma firstPass_step_inl (all : list string) (g g' : obj (list string))
                         (t : string) :
  firstPass_step all g t = inl g' ->
  (g' = set (partBase t) (get_or_empty (partBase t) g ++ [t]) g
   /\ listable (partBase t) g)
  \/ (g' = assign t [] g /\ partBase t = t).
Proof.
  unfold firstPass_step, partBase. destruct (partMatch t).
  - destruct (push_group _ t g) eqn:E; intros [= <-].
    left. exact (push_group_some _ _ _ _ E).
  - destruct (existsb _ all).
    + destruct (push_group _ t g) eqn:E; intros [= <-].
      left. exact (push_group_some _ _ _ _ E).
    + intros [= <-]. now right.
Qed.

(** The groups never get a property "__proto__" of their own. *)
Lemma firstPass_no_proto (all : list string) (g : obj (list string)) :
  firstPass all = inl g -> get "__proto__" g = None.
Proof.
  apply (firstPass_from_inv (fun g => get "__proto__" g = None) all all);
    [|reflexivity].
  intros g0 t g' H0 _ E.
  apply firstPass_step_inl in E as [[-> Hl] | [-> _]].
  - rewrite get_set_other; [exact H0|].
    intros Ek. destruct Hl as [Hl | Hl].
    + apply Hl. now rewrite <- Ek.
    + rewrite <- Ek in Hl. discriminate.
  - now apply get_assign_proto.
Qed.

Lemma get_fold_mapping (b k : string) (members : list string) (u0 : obj Mapping)
                       (m : Mapping) :
  get k (fold_left (fun u originalTopic =>
                      assign originalTopic (mkMapping b (Some originalTopic)) u)
                   members u0) = Some m ->
  (In k members /\ m = mkMapping b (Some k)) \/ get k u0 = Some m.
Proof.
  revert u0. induction members as [|x r IH]; intros u0 H; [now right|].
  cbn [fold_left] in H. apply IH in H as [[Hin ->] | H].
  - left. split; [now right | reflexivity].
  - apply get_assign_cases in H as [[-> ->] | [_ H]].
    + left. split; [now left | reflexivity].
    + now right.
Qed.

Lemma mappingSound_step (groups : obj (list string)) (acc : Transformed)
                        (b : string) :
  mappingSound acc -> ~ In b (transformedTopicOrder acc) ->
  b <> "__proto__" ->
  mappingSound (secondPass_step groups acc b).
Proof.
  intros [Hs Hm] Hb Hp. unfold secondPass_step.
  destruct (1 <? length (get_or_empty b groups))%nat eqn:E.
  - apply Nat.ltb_lt in E. split; cbn [transformedTopicOrder
      transformedSubTopicOrder topicMapping].
    + intros k l H. apply get_assign_cases in H as [[-> ->] | [_ H]].
      * split; [apply in_app_iff; right; now left | lia].
      * destruct (Hs _ _ H). split; [apply in_app_iff; now left | assumption].
    + intros k m H. apply get_fold_mapping in H as [[Hin ->] | H].
      * cbn [m_topic m_subtopic]. split; [apply in_app_iff; right; now left|].
        unfold get_or_empty at 1. now rewrite get_assign_same.
      * destruct (Hm _ _ H) as [Ht Hst].
        split; [apply in_app_iff; now left|].
        destruct (m_subtopic m); [|exact I].
        unfold get_or_empty at 1. rewrite get_assign_other; [exact Hst|].
        intros Eb. rewrite Eb in Ht. contradiction.
  - split; cbn [transformedTopicOrder transformedSubTopicOrder topicMapping].
    + intros k l H. destruct (Hs _ _ H).
      split; [apply in_app_iff; now left | assumption].
    + intros k m H. apply get_assign_cases in H as [[_ ->] | [_ H]].
      * cbn [m_topic m_subtopic]. split; [apply in_app_iff; right; now left|].
        exact I.
      * destruct (Hm _ _ H) as [Ht Hst].
        split; [apply in_app_iff; now left | exact Hst].
Qed.

Lemma mappingSound_fold (groups : obj (list string)) (ks : list string)
                        (acc : Transformed) :
  mappingSound acc -> NoDup ks -> ~ In "__proto__" ks ->
  (forall k, In k ks -> ~ In k (transformedTopicOrder acc)) ->
  mappingSound (fold_left (secondPass_step groups) ks acc).
Proof.
  revert acc. induction ks as [|k r IH]; intros acc Ha Hn Hp Hd; simpl; auto.
  inversion Hn as [|? ? Hk Hr]; subst.
  apply IH; auto.
  - apply mappingSound_step; auto.
    + apply Hd. now left.
    + intros ->. apply Hp. now left.
  - intros H. apply Hp. now right.
  - intros k' Hk'. rewrite secondPass_step_order, in_app_iff.
    intros [H | [-> | []]]; [apply (Hd k'); [now right | exact H] | contradiction].
Qed.

Lemma transform_mappingSound (all : list string) (t : Transformed) :
  transform all = inl t -> mappingSound t.
Proof.
  intros E. destruct (transform_inl all t E) as [g [Eg ->]].
  unfold secondPass. apply mappingSound_fold.
  - split; intros k x H; discriminate.
  - apply keys_NoDup, (firstPass_wf all g Eg).
  - intros H. apply in_keys_get in H. apply H.
    exact (firstPass_no_proto all g Eg).
  - intros k _ [].
Qed.

(** What [fetchSheetData] leaves, for a payload that passes the safety
    check: the error state when the transform throws, the transformed
    payload otherwise. *)
Lemma fetchSheetData_goodPayload
    (all : list string) (order : option (list string)) (qs : list Question)
    (s : QuestionState) :
  fetchSheetData (goodPayload all order qs) s
  = match transform all with
    | inl t =>
        mkQuestionState
          (mkSheetConfig (transformedTopicOrder t) (transformedSubTopicOrder t)
                         (match order with Some o => o | None => [] end))
          (map (transformQuestion (topicMapping t)) qs) false None
    | inr e =>
        mkQuestionState (config s) (questions s) false
          (Some (match e with
                 | ErrorObject m => m
                 | OtherValue => "Failed to fetch data"
                 end))
    end.
Proof.
  unfold fetchSheetData, fetchSheetData_settle, fetchSheetData_begin, ingest,
    goodPayload.
  cbn [sheet_config data_questions raw_topicOrder raw_questionOrder].
  now destruct (transform all).
Qed.

Lemma transformQuestion_plain (mapping : obj Mapping) (q : Question) :
  inherited (topic q) = None ->
  transformQuestion mapping q
  = match get (topic q) mapping with
    | Some m => with_subTopic (m_subtopic m) (with_topic (m_topic m) q)
    | None => q
    end.
Proof.
  intros H. unfold transformQuestion. rewrite (read_plain _ _ H).
  now destruct (get (topic q) mapping).
Qed.

Lemma transformQuestion_id (mapping : obj Mapping) (q : Question) :
  _id (transformQuestion mapping q) = _id q.
Proof. unfold transformQuestion. now destruct (read (topic q) mapping). Qed.

Lemma firstPass_from_app (all l1 l2 : list string)
                         (acc : obj (list string) + Thrown) :
  firstPass_from all (l1 ++ l2) acc
  = firstPass_from all l2 (firstPass_from all l1 acc).
Proof. apply fold_left_app. Qed.

(** A flat list whose group keys are none of them the name of a member of
    [Object.prototype] goes through the first pass without a throw. *)
Lemma firstPass_from_plain (all l : list string) (g : obj (list string)) :
  (forall t, In t l -> inherited (partBase t) = None) ->
  exists g', firstPass_from all l (inl g) = inl g'.
Proof.
  revert g. induction l as [|t r IH]; intros g H; [now exists g|].
  rewrite firstPass_from_cons.
  assert (Ht : inherited (partBase t) = None) by (apply H; now left).
  assert (E : exists g1, firstPass_step all g t = inl g1).
  { unfold firstPass_step, partBase in *. destruct (partMatch t).
    - rewrite push_group_listable by (now right). eauto.
    - destruct (existsb _ all); [|eauto].
      rewrite push_group_listable by (now right). eauto. }
  destruct E as [g1 ->]. apply IH. intros t' Ht'. apply H. now right.
Qed.

(** A part name whose base is the name of a member of [Object.prototype],
    and is not itself in the flat list, makes the first pass throw. *)
Lemma firstPass_inherited_base (all : list string) (t g1 : string) :
  In t all -> partMatch t = Some g1 ->
  inherited (trim g1) <> None -> ~ In (trim g1) all ->
  exists e, firstPass all = inr e.
Proof.
  intros Ht Hm Hi Hn.
  destruct (in_split t all Ht) as [l1 [l2 Eall]].
  assert (F : firstPass all = firstPass_from all (l1 ++ t :: l2) (inl empty))
    by (unfold firstPass; now rewrite <- Eall).
  rewrite F, firstPass_from_app.
  destruct (firstPass_from all l1 (inl empty)) as [g|e] eqn:E1;
    [|exists e; apply firstPass_from_thrown].
  assert (P : forall k, inherited k <> None -> get k g <> None -> In k all).
  { refine (firstPass_from_inv
              (fun g => forall k, inherited k <> None -> get k g <> None ->
                                  In k all) all l1 _ empty g _ E1).
    - intros g0 t0 g' H0 Hin Es k Hk Hg.
      apply firstPass_step_inl in Es as [[-> Hl] | [-> _]].
      + destruct (string_dec k (partBase t0)) as [-> | Hne].
        * destruct Hl as [Hl | Hl]; [now apply H0 | contradiction].
        * rewrite get_set_other in Hg by exact Hne. now apply H0.
      + destruct (string_dec k t0) as [-> | Hne].
        * rewrite Eall. apply in_app_iff. left. exact Hin.
        * rewrite get_assign_other in Hg by exact Hne. now apply H0.
    - intros k _ Hg. now elim Hg. }
  rewrite firstPass_from_cons.
  assert (Es : firstPass_step all g t
               = inr (notAFunction "topicGroups[baseTopic]")).
  { unfold firstPass_step. rewrite Hm. unfold push_group, read.
    destruct (get (trim g1) g) eqn:G.
    - exfalso. apply Hn. apply P; [exact Hi | congruence].
    - destruct (inherited (trim g1)); [reflexivity | contradiction]. }
  rewrite Es. eexists. apply firstPass_from_thrown.
Qed.

(** X18.  A fetch whose payload passes the safety check, whose flat topic
    list has no "__proto__" and whose questions bear no name of a member of
    [Object.prototype] as topic, ends with loading false and in one of two
    ways.  Either the transform throws: the error is set and config and
    questions are those before.  Or it commits, with no error: a topicOrder
    without duplicates; a subTopicOrder whose every key is in topicOrder and
    lists at least two sub-topics; the questionOrder of the payload (empty
    when it has none); as many questions as the payload, with the same ids
    in the same positions, each either passed through unchanged or placed
    under a topic of topicOrder and, when it gets a sub-topic, under one
    listed for that topic.  It commits when no group key of the flat list is
    the name of such a member; it throws when a part name has such a name,
    absent from the flat list, as its base. *)
Theorem fetchSheetData_success
    (all : list string) (order : option (list string)) (qs : list Question)
    (s : QuestionState) :
  ~ In "__proto__" all -> plainTopics qs ->
  let s' := fetchSheetData (goodPayload all order qs) s in
  loading s' = false
  /\ ((error s' <> None /\ config s' = config s /\ questions s' = questions s)
      \/ (error s' = None
          /\ NoDup (topicOrder (config s'))
          /\ (forall k l, get k (subTopicOrder (config s')) = Some l ->
                          In k (topicOrder (config s')) /\ (2 <= length l)%nat)
          /\ questionOrder (config s')
             = match order with Some o => o | None => [] end
          /\ map _id (questions s') = map _id qs
          /\ Forall2 (fun q q' =>
                        q' = q
                        \/ (In (topic q') (topicOrder (config s'))
                            /\ match subTopic q' with
                               | Some st =>
                                   In st (get_or_empty (topic q')
                                            (subTopicOrder (config s')))
                               | None => True
                               end))
                     qs (questions s')))
  /\ ((forall t, In t all -> inherited (partBase t) = None) -> error s' = None)
  /\ (forall t g1, In t all -> partMatch t = Some g1 ->
                   inherited (trim g1) <> None -> ~ In (trim g1) all ->
                   error s' <> None).
Proof.
  intros _ Hq s'. subst s'. rewrite fetchSheetData_goodPayload.
  split; [now destruct (transform all)|]. split; [|split].
  - destruct (transform all) as [t|e] eqn:E.
    + right. destruct (transform_mappingSound all t E) as [Hs Hm].
      cbn [config questions error topicOrder subTopicOrder questionOrder].
      split; [reflexivity|].
      split; [apply (transform_topicOrder all t E)|]. split; [exact Hs|].
      split; [reflexivity|]. split.
      * apply map_id_relabel. intros q. apply transformQuestion_id.
      * clear Hs. induction qs as [|q r IH]; [constructor|].
        cbn [map]. constructor.
        -- rewrite transformQuestion_plain by (apply Hq; now left).
           destruct (get (topic q) (topicMapping t)) as [m|] eqn:G;
             [right | now left].
           exact (Hm _ _ G).
        -- apply IH. intros q' Hq'. apply Hq. now right.
    + left. cbn [config questions error]. split; [discriminate|]. now split.
  - intros Hp. unfold transform.
    destruct (firstPass_from_plain all all empty Hp) as [g Eg].
    unfold firstPass. now rewrite Eg.
  - intros t g1 Ht Hm Hi Hn.
    destruct (firstPass_inherited_base all t g1 Ht Hm Hi Hn) as [e Ee].
    unfold transform. rewrite Ee. discriminate.
Qed.

Lemma fetchSheetData_success_witness :
  let q := sampleQuestion "q1" "DP Part-I" None in
  let s' := fetchSheetData (goodPayload partsExample None [q]) initial in
  let s'' := fetchSheetData
               (goodPayload ["Arrays"; "constructor Part-I"] None [q]) initial in
  ~ In "__proto__" partsExample
  /\ plainTopics [q]
  /\ error s' = None
  /\ error s'' <> None.
Proof.
  intros q s' s''.
  assert (Hq : plainTopics [q]) by (intros q' [<- | []]; reflexivity).
  assert (H1 : ~ In "__proto__" partsExample)
    by (simpl; intuition discriminate).
  assert (H2 : ~ In "__proto__" ["Arrays"; "constructor Part-I"])
    by (simpl; intuition discriminate).
  destruct (fetchSheetData_success partsExample None [q] initial H1 Hq)
    as [_ [_ [P _]]].
  destruct (fetchSheetData_success ["Arrays"; "constructor Part-I"] None [q]
              initial H2 Hq) as [_ [_ [_ Q]]].
  split; [exact H1|]. split; [exact Hq|]. split.
  - apply P. intros t [<- | [<- | [<- | [<- | []]]]]; reflexivity.
  - apply (Q "constructor Part-I" "constructor").
    + right. left. reflexivity.
    + reflexivity.
    + discriminate.
    + simpl. intuition discriminate.
Defined.

(* ===================================================================== *)
(** ** Ingestion when no two flat names share a base *)
(* ===================================================================== *)

Lemma set_fresh {V : Type} (k : string) (v : V) (o : obj V) :
  get k o = None -> set k v o = o ++ [(k, v)].
Proof.
  induction o as [|[k' v'] r IH]; simpl; [reflexivity|].
  destruct (String.eqb k' k); [discriminate|].
  intros H. now rewrite (IH H).
Qed.

Lemma firstPass_step_fresh (all : list string) (g : obj (list string)) (t : string) :
  get (partBase t) g = None -> inherited (partBase t) = None ->
  firstPass_step all g t = inl (g ++ [(partBase t, groupOf all t)]).
Proof.
  unfold firstPass_step, partBase, groupOf, push_group, read.
  destruct (partMatch t) as [g1|].
  - intros H Hi. rewrite H, Hi. now rewrite set_fresh.
  - intros H Hi. destruct (existsb _ all).
    + rewrite H, Hi. now rewrite set_fresh.
    + rewrite assign_set by (now apply inherited_proto). now rewrite set_fresh.
Qed.

Lemma firstPass_fold_fresh (all l : list string) (g : obj (list string)) :
  NoDup (map fst g ++ map partBase l) ->
  (forall t, In t l -> inherited (partBase t) = None) ->
  firstPass_from all l (inl g)
  = inl (g ++ map (fun t => (partBase t, groupOf all t)) l).
Proof.
  revert g. induction l as [|t r IH]; intros g Hn Hi.
  - cbn [firstPass_from fold_left map]. now rewrite app_nil_r.
  - rewrite firstPass_from_cons. simpl in Hn. rewrite firstPass_step_fresh.
    + rewrite IH.
      * cbn [map]. now rewrite <- app_assoc.
      * rewrite map_app, <- app_assoc. exact Hn.
      * intros t' Ht'. apply Hi. now right.
    + apply get_none_notin. apply NoDup_remove_2 in Hn.
      intros H. apply Hn. apply in_app_iff. now left.
    + apply Hi. now left.
Qed.

Lemma keys_names {V : Type} (o : obj V) :
  (forall k, In k (map fst o) -> array_index k = None) -> keys o = map fst o.
Proof.
  unfold keys. induction o as [|[k v] r IH]; intros H; [reflexivity|].
  cbn [index_keys name_keys map fst].
  rewrite (H k) by now left.
  assert (Hr : forall k', In k' (map fst r) -> array_index k' = None)
    by (intros k' Hk; apply H; now right).
  specialize (IH Hr).
  destruct (index_keys r) as [|x xs] eqn:E.
  - simpl in IH |- *. now rewrite IH.
  - exfalso.
    assert (L : length (map snd (x :: xs) ++ name_keys r) = length (map fst r))
      by now rewrite IH.
    clear IH E. revert L.
    assert (Hle : (length (name_keys r) = length (map fst r))%nat).
    { clear -Hr. induction r as [|[k' v'] r IH]; [reflexivity|].
      cbn [name_keys map fst]. rewrite (Hr k') by now left.
      simpl. f_equal. apply IH. intros k Hk. apply Hr. now right. }
    rewrite length_app. simpl. lia.
Qed.

Lemma groupOf_short (all : list string) (l : list string) (k : string) :
  (length (get_or_empty k (map (fun t => (partBase t, groupOf all t)) l)) <= 1)%nat.
Proof.
  unfold get_or_empty. induction l as [|t r IH]; simpl; [lia|].
  destruct (String.eqb (partBase t) k); [|exact IH].
  unfold groupOf. destruct (partMatch t); [simpl; lia|].
  destruct (existsb _ all); simpl; lia.
Qed.

Lemma secondPass_fold_flat (groups : obj (list string)) (ks : list string)
                           (acc : Transformed) :
  (forall k, (length (get_or_empty k groups) <= 1)%nat) ->
  NoDup (map fst (topicMapping acc) ++ ks) ->
  ~ In "__proto__" ks ->
  fold_left (secondPass_step groups) ks acc
  = mkTransformed (transformedTopicOrder acc ++ ks)
                  (transformedSubTopicOrder acc)
                  (topicMapping acc ++ map (fun k => (k, mkMapping k None)) ks).
Proof.
  intros Hs. revert acc. induction ks as [|k r IH]; intros acc Hn Hp; simpl.
  - rewrite !app_nil_r. now destruct acc.
  - assert (Hk : k <> "__proto__") by (intros ->; apply Hp; now left).
    assert (Hr : ~ In "__proto__" r) by (intros H; apply Hp; now right).
    unfold secondPass_step at 2.
    assert (E : (1 <? length (get_or_empty k groups))%nat = false)
      by (apply Nat.ltb_ge; apply Hs).
    rewrite E, IH; cbn [transformedTopicOrder transformedSubTopicOrder topicMapping].
    + rewrite assign_set by exact Hk. rewrite set_fresh.
      * now rewrite <- !app_assoc.
      * apply get_none_notin. apply NoDup_remove_2 in Hn.
        intros H. apply Hn. apply in_app_iff. now left.
    + rewrite assign_set by exact Hk. rewrite set_fresh.
      * rewrite map_app, <- app_assoc. exact Hn.
      * apply get_none_notin. apply NoDup_remove_2 in Hn.
        intros H. apply Hn. apply in_app_iff. now left.
    + exact Hr.
Qed.

Lemma transform_flat (all : list string) :
  NoDup (map partBase all) ->
  (forall t, In t all -> array_index (partBase t) = None) ->
  (forall t, In t all -> inherited (partBase t) = None) ->
  transform all
  = inl (mkTransformed (map partBase all) empty
           (map (fun k => (k, mkMapping k None)) (map partBase all))).
Proof.
  intros Hn Hi Hp. unfold transform, secondPass, firstPass.
  rewrite (firstPass_fold_fresh all all empty) by assumption.
  cbn [empty app]. f_equal.
  set (groups := map (fun t => (partBase t, groupOf all t)) all).
  assert (Hf : map fst groups = map partBase all).
  { unfold groups. rewrite map_map. reflexivity. }
  rewrite keys_names.
  - rewrite Hf, secondPass_fold_flat.
    + reflexivity.
    + intros k. apply groupOf_short.
    + exact Hn.
    + intros H. apply in_map_iff in H as [t [E Ht]].
      apply Hp in Ht. rewrite E in Ht. discriminate.
  - rewrite Hf. intros k Hk. apply in_map_iff in Hk as [t [<- Ht]]. now apply Hi.
Qed.

Lemma get_map_self {V : Type} (f : string -> V) (ks : list string) (k : string) :
  get k (map (fun x => (x, f x)) ks)
  = if in_dec string_dec k ks then Some (f k) else None.
Proof.
  induction ks as [|x r IH]; simpl; [reflexivity|].
  destruct (String.eqb x k) eqn:E.
  - apply String.eqb_eq in E. subst.
    destruct (string_dec k k); [reflexivity | congruence].
  - apply String.eqb_neq in E. rewrite IH.
    destruct (string_dec x k); [congruence|].
    now destruct (in_dec string_dec k r).
Qed.

Lemma Forall2_head {A B : Type} (R : A -> B -> Prop) (x : A) (l : list A)
                   (l' : list B) :
  Forall2 R (x :: l) l' -> exists y, hd_error l' = Some y /\ R x y.
Proof. inversion 1; subst; simpl; eauto. Qed.

(** X19.  When no two names of the flat topic list are filed under the same
    base, no base is an integer-like key or the name of a member of
    [Object.prototype], and no question bears such a name as topic,
    ingestion commits and only strips the part suffixes: topicOrder is the
    list of bases in the order of the flat list and subTopicOrder is empty.
    A question tagged with one of the bases keeps its topic and gets a null
    sub-topic; any other question is passed through unchanged, so a question
    tagged with a part name that is not itself a base keeps a topic that is
    not in topicOrder. *)
Theorem fetchSheetData_flat
    (all : list string) (order : option (list string)) (qs : list Question)
    (s : QuestionState) :
  NoDup (map partBase all) ->
  (forall t, In t all -> array_index (partBase t) = None) ->
  (forall t, In t all -> inherited (partBase t) = None) ->
  plainTopics qs ->
  let s' := fetchSheetData (goodPayload all order qs) s in
  error s' = None
  /\ topicOrder (config s') = map partBase all
  /\ subTopicOrder (config s') = empty
  /\ Forall2 (fun q q' =>
                (In (topic q) (map partBase all) -> q' = with_subTopic None q)
                /\ (~ In (topic q) (map partBase all) ->
                    q' = q /\ ~ In (topic q') (topicOrder (config s'))))
             qs (questions s').
Proof.
  intros Hn Hi Hp Hq s'. subst s'.
  rewrite fetchSheetData_goodPayload, (transform_flat all Hn Hi Hp).
  cbn [config questions error topicOrder subTopicOrder
       transformedTopicOrder transformedSubTopicOrder topicMapping].
  split; [reflexivity|]. split; [reflexivity|]. split; [reflexivity|].
  induction qs as [|q r IH]; [constructor|].
  cbn [map]. constructor; [|apply IH; intros q' Hq'; apply Hq; now right].
  rewrite transformQuestion_plain by (apply Hq; now left).
  rewrite (get_map_self (fun k => mkMapping k None)).
  destruct (in_dec string_dec (topic q) (map partBase all)) as [I | N].
  - split; [|contradiction]. intros _. now destruct q.
  - split; [contradiction|]. intros _. split; [reflexivity | exact N].
Qed.

Lemma fetchSheetData_flat_witness :
  let q := sampleQuestion "q1" "DP Part-I" None in
  let s' := fetchSheetData
              (goodPayload ["Arrays"; "DP Part-I"; "Graphs"] None [q]) initial in
  topicOrder (config s') = ["Arrays"; "DP"; "Graphs"]
  /\ hd_error (questions s') = Some q.
Proof.
  intros q s'.
  assert (Hn : NoDup (map partBase ["Arrays"; "DP Part-I"; "Graphs"])).
  { vm_compute. repeat constructor; simpl; intuition discriminate. }
  assert (Hi : forall t, In t ["Arrays"; "DP Part-I"; "Graphs"] ->
                         array_index (partBase t) = None).
  { intros t [<- | [<- | [<- | []]]]; reflexivity. }
  assert (Hp : forall t, In t ["Arrays"; "DP Part-I"; "Graphs"] ->
                         inherited (partBase t) = None).
  { intros t [<- | [<- | [<- | []]]]; reflexivity. }
  assert (Hq : plainTopics [q]).
  { intros q' [<- | []]. reflexivity. }
  destruct (fetchSheetData_flat ["Arrays"; "DP Part-I"; "Graphs"] None [q]
              initial Hn Hi Hp Hq) as [_ [P [_ F]]].
  split; [exact P|].
  destruct (Forall2_head _ _ _ _ F) as [y [Hy [_ H]]].
  destruct H as [E _]; [vm_compute; intuition discriminate|].
  subst y. exact Hy.
Defined.

(* ===================================================================== *)
(** ** The forms: trimming and what reaches the store *)
(* ===================================================================== *)











Lemma with_topic_same (q : Question) : with_topic (topic q) q = q.
Proof. now destruct q. Qed.

Lemma editTopic_same_name (t : string) (s : QuestionState) :
  topicOrder (config (editTopic t t s)) = topicOrder (config s)
  /\ questions (editTopic t t s) = questions s
  /\ questionOrder (config (editTopic t t s)) = questionOrder (config s)
  /\ forall k, get k (subTopicOrder (config (editTopic t t s)))
               = if String.eqb k "__proto__" then None
                 else get k (subTopicOrder (config s)).
Proof.
  split; [|split; [|split]].
  - simpl. erewrite map_ext; [apply map_id|].
    intros x. unfold rename. destruct (String.eqb x t) eqn:E; auto.
    now apply String.eqb_eq in E.
  - simpl. erewrite map_ext; [apply map_id|].
    intros q. destruct (String.eqb (topic q) t) eqn:E; auto.
    apply String.eqb_eq in E. rewrite <- E. apply with_topic_same.
  - reflexivity.
  - intros k. rewrite (editTopic_lookup t t s (or_introl eq_refl)).
    destruct (String.eqb k "__proto__"); [reflexivity|].
    destruct (String.eqb k t) eqn:E; [|reflexivity].
    apply String.eqb_eq in E. now subst.
Qed.

(** X21.  The edit form of a topic.  Text that trims to nothing, or that is
    the current name, cancels: the state is unchanged.  Text that differs
    from the current name only by surrounding spaces leaves topicOrder,
    questionOrder, the questions and the sub-topic list of every name other
    than "__proto__" as they were; when such text is saved, as a rename of
    the topic to itself, the rebuilt subTopicOrder has no property
    "__proto__" of its own, whatever it had before.  Any other text renames
    the topic to the trimmed text. *)
Theorem TopicItem_handleEdit (topicName value : string) (s : QuestionState) :
  let s' := TopicItem.handleEdit topicName value s in
  (trim value = EmptyString \/ value = topicName -> s' = s)
  /\ (trim value = topicName ->
      topicOrder (config s') = topicOrder (config s)
      /\ questions s' = questions s
      /\ questionOrder (config s') = questionOrder (config s)
      /\ (forall k, k <> "__proto__" ->
                    get k (subTopicOrder (config s'))
                    = get k (subTopicOrder (config s)))
      /\ (topicName <> EmptyString -> value <> topicName ->
          get "__proto__" (subTopicOrder (config s')) = None))
  /\ (trim value <> EmptyString -> value <> topicName ->
      s' = editTopic topicName (trim value) s).
Proof.
  intros s'. subst s'. unfold TopicItem.handleEdit, EditForm.handleSave.
  split; [|split].
  - intros [H | H].
    + now rewrite H.
    + apply String.eqb_eq in H. rewrite H. cbn [negb]. now rewrite andb_false_r.
  - intros H. rewrite H.
    destruct (editTopic_same_name topicName s) as (A & B & C & D).
    destruct (nonempty topicName && negb (String.eqb value topicName)) eqn:E.
    + split; [exact A|]. split; [exact B|]. split; [exact C|]. split.
      * intros k Hk. rewrite D.
        now rewrite (proj2 (String.eqb_neq k "__proto__") Hk).
      * intros _ _. now rewrite D.
    + split; [reflexivity|]. split; [reflexivity|]. split; [reflexivity|].
      split; [reflexivity|].
      intros Hn Hv. rewrite (nonempty_true _ Hn) in E.
      rewrite (proj2 (String.eqb_neq value topicName) Hv) in E. discriminate.
  - intros Hn Hv. rewrite (nonempty_true _ Hn).
    now rewrite (proj2 (String.eqb_neq value topicName) Hv).
Qed.

Lemma TopicItem_handleEdit_witness :
  let s := stateOf ["Graphs"; "Trees"] [("Graphs", ["BFS"; "DFS"])] ["q1"]
                   [sampleQuestion "q1" "Graphs" (Some "BFS")] in
  questions (TopicItem.handleEdit "Graphs" "Graphs " s) = questions s
  /\ TopicItem.handleEdit "Graphs" "  " s = s
  /\ TopicItem.handleEdit "Graphs" " Graph Theory" s
     = editTopic "Graphs" "Graph Theory" s.
Proof.
  intros s.
  destruct (TopicItem_handleEdit "Graphs" "Graphs " s) as [_ [P _]].
  destruct (TopicItem_handleEdit "Graphs" "  " s) as [C _].
  destruct (TopicItem_handleEdit "Graphs" " Graph Theory" s) as [_ [_ R]].
  split; [exact (proj1 (proj2 (P eq_refl)))|].
  split; [apply C; left; reflexivity|].
  apply R; discriminate.
Defined.

Lemma or_default_topic (t : string) : or_default (Some t) EmptyString = t.
Proof. now destruct t. Qed.

(** X22.  [AddQuestionForm]: a title made of spaces only changes nothing.
    Otherwise exactly one question is appended, with the id of the clock
    reading appended to questionOrder, the trimmed text as its title (never
    the fallback title), and the topic of the form; it is then listed by the
    [SubTopicItem] it was added from, or, when added from a topic without
    sub-topic, among the topic's questions without sub-topic. *)
Theorem AddQuestionForm_handleSubmit
    (now : N) (topicName : string) (subTopicName : option string)
    (text res : string) (s : QuestionState) :
  let s' := AddQuestionForm.handleSubmit now topicName subTopicName text res s in
  (trim text = EmptyString -> s' = s)
  /\ (trim text <> EmptyString ->
      exists q,
        questions s' = questions s ++ [q]
        /\ questionOrder (config s') = questionOrder (config s) ++ [tempId now]
        /\ _id q = tempId now
        /\ title q = trim text
        /\ topic q = topicName
        /\ match subTopicName with
           | Some st =>
               st <> EmptyString ->
               In q (SubTopicItem.questions topicName st s')
           | None => In q (TopicItem.questionsWithoutSubTopic topicName s')
           end).
Proof.
  intros s'. subst s'. unfold AddQuestionForm.handleSubmit. split.
  - intros ->. reflexivity.
  - intros Hn. rewrite (nonempty_true _ Hn). cbn [negb].
    eexists. split; [reflexivity|]. split; [reflexivity|].
    split; [reflexivity|].
    split; [cbn -[or_default or_null nonempty trim String.eqb opt_eqb];
            unfold or_default; now rewrite (nonempty_true _ Hn)|].
    split; [cbn -[or_default or_null nonempty trim String.eqb opt_eqb];
            apply or_default_topic|].
    destruct subTopicName as [st|].
    + intros Hst. unfold SubTopicItem.questions, getQuestionsBySubTopic.
      apply filter_In. split; [cbn; apply in_app_iff; right; now left|].
      cbn -[or_default or_null nonempty trim String.eqb opt_eqb].
      rewrite or_default_topic, String.eqb_refl, (nonempty_true _ Hst).
      unfold or_null. rewrite (nonempty_true _ Hst).
      cbn [andb opt_eqb]. apply String.eqb_refl.
    + unfold TopicItem.questionsWithoutSubTopic, TopicItem.allTopicQuestions,
        getQuestionsByTopic.
      apply filter_In. split; [|reflexivity].
      apply filter_In. split; [cbn; apply in_app_iff; right; now left|].
      cbn -[or_default or_null nonempty trim String.eqb opt_eqb].
      rewrite or_default_topic. apply String.eqb_refl.
Qed.

Lemma AddQuestionForm_handleSubmit_witness :
  let s := stateOf ["Graphs"] [("Graphs", ["BFS"])] [] [] in
  AddQuestionForm.handleSubmit 42 "Graphs" (Some "BFS") "   " "" s = s
  /\ exists q,
       questions (AddQuestionForm.handleSubmit 42 "Graphs" (Some "BFS")
                    " Word Ladder " "" s) = [q]
       /\ title q = "Word Ladder".
Proof.
  intros s. split.
  - apply (proj1 (AddQuestionForm_handleSubmit 42 "Graphs" (Some "BFS")
                    "   " "" s)). reflexivity.
  - destruct (AddQuestionForm_handleSubmit 42 "Graphs" (Some "BFS")
                " Word Ladder " "" s) as [_ H].
    destruct H as [q [Hq [_ [_ [Ht _]]]]]; [discriminate|].
    exists q. split; [exact Hq | exact Ht].
Defined.

(** With unique ids, two questions of the collection that bear the same id
    are one and the same. *)
Lemma unique_id_same (qs : list Question) (x y : Question) :
  NoDup (map _id qs) -> In x qs -> In y qs -> _id x = _id y -> x = y.
Proof.
  intros Hids. induction qs as [|q rest IH]; [intros []|].
  cbn [map] in Hids. apply NoDup_cons_iff in Hids as [Hfresh Hrest].
  intros [-> | Hx] [-> | Hy] E; auto.
  - exfalso. apply Hfresh. rewrite E. now apply in_map.
  - exfalso. apply Hfresh. rewrite <- E. now apply in_map.
Qed.

(** X23.  Saving the edit form of a question changes the title and the
    resource of the questions bearing its id and nothing else: every
    question keeps id, topic, sub-topic and reference, the others are
    untouched, and [config] is unchanged.  With ids that are unique, saving
    the form untouched is a no-op when the question has a resource; when its
    resource is null, the empty string is stored in its place. *)
Theorem QuestionItem_handleSave
    (question : Question) (editedTitle editedResource : string)
    (s : QuestionState) :
  let s' := QuestionItem.handleSave question editedTitle editedResource s in
  Forall2 (fun q q' =>
             _id q' = _id q /\ topic q' = topic q /\ subTopic q' = subTopic q
             /\ questionId q' = questionId q
             /\ (_id q = _id question ->
                 title q' = editedTitle /\ resource q' = Some editedResource)
             /\ (_id q <> _id question -> q' = q))
          (questions s) (questions s')
  /\ config s' = config s
  /\ (editedTitle = title question ->
      editedResource = QuestionItem.initialResource question ->
      In question (questions s) -> NoDup (map _id (questions s)) ->
      (resource question <> None -> s' = s)
      /\ (resource question = None ->
          In (with_resource (Some EmptyString) question) (questions s'))).
Proof.
  intros s'. subst s'. unfold QuestionItem.handleSave, editQuestion, set_questions.
  cbn [questions config].
  split; [|split; [reflexivity|]].
  - apply Forall2_map_self. intros q.
    destruct (String.eqb (_id q) (_id question)) eqn:E.
    + apply String.eqb_eq in E. cbn. repeat split; congruence.
    + apply String.eqb_neq in E. repeat split; congruence.
  - intros -> -> Hin Hn. split.
    + intros Hr.
      assert (Hid : map (fun q => if String.eqb (_id q) (_id question)
                          then merge q (mkPartialQuestion None (Some (title question))
                                 None None
                                 (Some (Some (QuestionItem.initialResource question)))
                                 None)
                          else q) (questions s) = questions s).
      { erewrite map_ext_in; [apply map_id|].
        intros q Hq. destruct (String.eqb (_id q) (_id question)) eqn:E; auto.
        apply String.eqb_eq in E.
        assert (q = question) by (eapply unique_id_same; eauto).
        subst q. unfold QuestionItem.initialResource.
        destruct question as [i t tp st [r|] ref];
          [reflexivity | exfalso; apply Hr; reflexivity]. }
      rewrite Hid. now destruct s.
    + intros Hr. apply in_map_iff. exists question. split; [|exact Hin].
      rewrite String.eqb_refl. unfold QuestionItem.initialResource.
      rewrite Hr. now destruct question.
Qed.

Lemma QuestionItem_handleSave_witness :
  let q := sampleQuestion "q1" "A" None in
  let s := stateOf ["A"] empty ["q1"] [q] in
  In (with_resource (Some EmptyString) q)
     (questions (QuestionItem.handleSave q (title q)
                   (QuestionItem.initialResource q) s)).
Proof.
  intros q s.
  destruct (QuestionItem_handleSave q (title q) (QuestionItem.initialResource q) s)
    as [_ [_ H]].
  apply H; try reflexivity.
  - left. reflexivity.
  - repeat constructor. simpl. tauto.
Defined.

(** X24.  The mount effect of [App] fetches only into a store without
    topics: with a topic in topicOrder it changes nothing.  After
    [deleteTopic] has removed the last topic, the effect fetches again.  For
    a payload that passes the safety check and has no "__proto__" in its
    flat topic list, either the transform throws, the error is set and the
    store stays as [deleteTopic] left it, without topics; or the payload
    replaces the store's content: topicOrder is the one built from the
    payload, the questions are the payload's, id for id, and questionOrder
    is the payload's.  The second is the case when no group key of the flat
    list is the name of a member of [Object.prototype]. *)
Theorem fetchIfEmpty_after_last_delete
    (t : string) (all : list string) (order : option (list string))
    (qs : list Question) (r : Response) (s : QuestionState) :
  (topicOrder (config s) <> [] -> fetchIfEmpty r s = s)
  /\ ((forall x, In x (topicOrder (config s)) -> x = t) ->
      ~ In "__proto__" all ->
      let s0 := deleteTopic t s in
      let s' := fetchIfEmpty (goodPayload all order qs) s0 in
      s' = fetchSheetData (goodPayload all order qs) s0
      /\ ((exists e, transform all = inr e
                     /\ error s' <> None
                     /\ config s' = config s0
                     /\ questions s' = questions s0
                     /\ topicOrder (config s') = [])
          \/ (exists tr, transform all = inl tr
                         /\ error s' = None
                         /\ topicOrder (config s') = transformedTopicOrder tr
                         /\ map _id (questions s') = map _id qs
                         /\ questionOrder (config s')
                            = match order with Some o => o | None => [] end))
      /\ ((forall x, In x all -> inherited (partBase x) = None) ->
          error s' = None)).
Proof.
  split.
  - unfold fetchIfEmpty. destruct (topicOrder (config s)); [congruence|].
    reflexivity.
  - intros Hall _ s0 s'.
    assert (E : topicOrder (config s0) = []).
    { subst s0. cbn.
      induction (topicOrder (config s)) as [|x l IH]; [reflexivity|].
      simpl. rewrite (Hall x) by now left. rewrite String.eqb_refl. simpl.
      apply IH. intros y Hy. apply Hall. now right. }
    assert (F : s' = fetchSheetData (goodPayload all order qs) s0).
    { subst s'. unfold fetchIfEmpty. now rewrite E. }
    split; [exact F|]. rewrite F, fetchSheetData_goodPayload.
    split.
    + destruct (transform all) as [tr|e].
      * right. exists tr. cbn [config questions error topicOrder questionOrder].
        repeat split. apply map_id_relabel. intros q.
        apply transformQuestion_id.
      * left. exists e. cbn [config questions error].
        split; [reflexivity|]. split; [discriminate|].
        split; [reflexivity|]. split; [reflexivity | exact E].
    + intros Hp. unfold transform.
      destruct (firstPass_from_plain all all empty Hp) as [g Eg].
      unfold firstPass. now rewrite Eg.
Qed.

Lemma fetchIfEmpty_after_last_delete_witness :
  let s := stateOf ["Mine"] empty ["m1"] [sampleQuestion "m1" "Mine" None] in
  let q := sampleQuestion "q1" "Graphs" None in
  fetchIfEmpty (goodPayload ["Graphs"] None [q]) s = s
  /\ error (fetchIfEmpty (goodPayload ["Graphs"] None [q])
                         (deleteTopic "Mine" s)) = None.
Proof.
  intros s q.
  destruct (fetchIfEmpty_after_last_delete "Mine" ["Graphs"] None [q]
              (goodPayload ["Graphs"] None [q]) s) as [P Q].
  split.
  - apply P. discriminate.
  - destruct Q as [_ [_ H]].
    + intros x [<- | []]. reflexivity.
    + simpl. intuition discriminate.
    + apply H. intros x [<- | []]. reflexivity.
Defined.

(* ===================================================================== *)
(** ** A question dropped into another container *)
(* ===================================================================== *)

(** X25.  A question dropped onto a question of another container (another
    topic or another sub-topic): every question bearing the dragged id gets
    the topic and the sub-topic of the target and no other question changes;
    questionOrder is permuted, with the dragged id at the index the target
    had when both ids are listed, and is untouched when one of them is not
    listed; topicOrder and subTopicOrder are unchanged. *)
Theorem handleDragEnd_question_other_container
    (a b : string) (qa qb : Question) (s : QuestionState) :
  a <> EmptyString -> b <> EmptyString -> a <> b ->
  find (fun q => String.eqb (_id q) a) (questions s) = Some qa ->
  find (fun q => String.eqb (_id q) b) (questions s) = Some qb ->
  topic qa <> topic qb \/ subTopic qa <> subTopic qb ->
  let s' := handleDragEnd (questionEvent a b) s in
  Forall2 (fun q q' =>
             (_id q = a ->
              q' = with_subTopic (subTopic qb) (with_topic (topic qb) q))
             /\ (_id q <> a -> q' = q))
          (questions s) (questions s')
  /\ topicOrder (config s') = topicOrder (config s)
  /\ subTopicOrder (config s') = subTopicOrder (config s)
  /\ Permutation (questionOrder (config s')) (questionOrder (config s))
  /\ (In a (questionOrder (config s)) -> In b (questionOrder (config s)) ->
      nth_error (questionOrder (config s'))
                (Z.to_nat (indexOf b (questionOrder (config s)))) = Some a)
  /\ (~ In a (questionOrder (config s)) \/ ~ In b (questionOrder (config s)) ->
      questionOrder (config s') = questionOrder (config s)).
Proof.
  intros Ha Hb Hab Fa Fb Hd s'. subst s'.
  rewrite (handleDragEnd_questions a b s Ha Hb Hab).
  unfold handleQuestions.
  rewrite (nonempty_true a Ha), (nonempty_true b Hb), Fa, Fb. cbn [andb].
  assert (E : String.eqb (topic qa) (topic qb)
              && opt_eqb (subTopic qa) (subTopic qb) = false).
  { apply andb_false_iff. destruct Hd as [H | H].
    - left. now apply String.eqb_neq.
    - right. destruct (opt_eqb (subTopic qa) (subTopic qb)) eqn:O; auto.
      apply opt_eqb_eq in O. contradiction. }
  rewrite E.
  assert (F : Forall2 (fun q q' =>
                (_id q = a ->
                 q' = with_subTopic (subTopic qb) (with_topic (topic qb) q))
                /\ (_id q <> a -> q' = q))
              (questions s)
              (questions (moveQuestionToSubTopic a (topic qb) (subTopic qb) s))).
  { simpl. apply Forall2_map_self. intros q.
    destruct (String.eqb (_id q) a) eqn:Eq.
    - apply String.eqb_eq in Eq. split; [reflexivity | congruence].
    - apply String.eqb_neq in Eq. split; [congruence | reflexivity]. }
  destruct (spliceReorder a b (questionOrder (config s))) as [l'|] eqn:R.
  - cbn [reorderQuestions set_config config questions topicOrder subTopicOrder
         questionOrder moveQuestionToSubTopic set_questions] in *.
    split; [exact F|]. split; [reflexivity|]. split; [reflexivity|].
    split; [now apply spliceReorder_perm in R|]. split.
    + intros Ia Ib.
      destruct (spliceReorder_found a b _ Ia Ib) as [l2 [E2 [Hn _]]].
      congruence.
    + intros H. rewrite (spliceReorder_missing a b _ H) in R. discriminate.
  - split; [exact F|]. cbn [moveQuestionToSubTopic set_questions config].
    split; [reflexivity|]. split; [reflexivity|]. split; [reflexivity|].
    split; [|reflexivity].
    intros Ia Ib.
    destruct (spliceReorder_found a b _ Ia Ib) as [l2 [E2 _]]. congruence.
Qed.

Lemma handleDragEnd_question_other_container_witness :
  let q1 := sampleQuestion "q1" "A" None in
  let q2 := sampleQuestion "q2" "B" (Some "b1") in
  let q3 := sampleQuestion "q3" "B" (Some "b1") in
  let s := stateOf ["A"; "B"] [("B", ["b1"])] ["q1"; "q2"; "q3"] [q1; q2; q3] in
  nth_error (questionOrder (config (handleDragEnd (questionEvent "q1" "q3") s))) 2
  = Some "q1".
Proof.
  intros q1 q2 q3 s.
  assert (Ha : "q1" <> EmptyString) by discriminate.
  assert (Hb : "q3" <> EmptyString) by discriminate.
  assert (Hab : "q1" <> "q3") by discriminate.
  assert (Fa : find (fun q => String.eqb (_id q) "q1") (questions s) = Some q1)
    by reflexivity.
  assert (Fb : find (fun q => String.eqb (_id q) "q3") (questions s) = Some q3)
    by reflexivity.
  assert (Hd : topic q1 <> topic q3 \/ subTopic q1 <> subTopic q3)
    by (left; discriminate).
  destruct (handleDragEnd_question_other_container "q1" "q3" q1 q3 s
              Ha Hb Hab Fa Fb Hd) as [_ [_ [_ [_ [P _]]]]].
  apply P; simpl; tauto.
Defined.
